(** * StartingAbstract: the entropy analysis and the training driver

    A shallow embedding of
    - [analysis/compare_conditional_entropy.py]: the sliding-window matrix,
      the cumulative sizes and [collect_data];
    - [provident/job.py]: [main] and [train_on_corpus].

    Python integers are unbounded and are modelled as [Z]; counts that the
    libraries deliver as lengths are [nat].  Python exceptions are the
    [Raise] branch of [result].  The numerical libraries (numpy, pyitlib,
    torch, pandas, preppy) are outside the repository: what the code needs
    from them is either written out (slicing, flipping, boolean masks,
    [as_strided], [linspace], [islice], the length check of [pd.Series]) or
    taken as a section variable (the entropy estimator, the model update,
    the scorers). *)

From Stdlib Require Import String.
From Stdlib Require Import List ZArith QArith Bool Lia Arith Permutation.
From Stdlib Require Import Sorting.Sorted.
From Stdlib Require Import Reals Lra.
Import ListNotations.

Set Implicit Arguments.
Open Scope Z_scope.

(** ** Exceptions and the error monad *)

Inductive exn : Type :=
| IndexError
| KeyError
| ValueError
| AttributeError
| ZeroDivisionError.

Inductive result (A : Type) : Type :=
| Ok (a : A)
| Raise (e : exn).

Arguments Ok {A} a.
Arguments Raise {A} e.

Definition bind {A B : Type} (r : result A) (k : A -> result B) : result B :=
  match r with
  | Ok a => k a
  | Raise e => Raise e
  end.

Notation "x <- c ;; k" := (bind c (fun x => k))
  (at level 61, c at next level, right associativity).

Fixpoint mapM {A B : Type} (f : A -> result B) (l : list A) : result (list B) :=
  match l with
  | [] => Ok []
  | a :: l' => b <- f a ;; bs <- mapM f l' ;; Ok (b :: bs)
  end.

Definition is_ok {A : Type} (r : result A) : bool :=
  match r with Ok _ => true | Raise _ => false end.

(** ** numpy operations used by the analysis *)

Module Np.

(** A two-dimensional int64 array: the second component of its shape and
    its rows.  numpy keeps the number of columns also when there is no
    row, so it is a field of its own. *)
Record ndarray : Type := mk_ndarray {
  ncols : nat;
  rows : list (list Z)
}.

Definition nrows (m : ndarray) : nat := length (rows m).

(** Every row has the width the shape announces. *)
Definition wf (m : ndarray) : Prop :=
  Forall (fun r => length r = ncols m) (rows m).

(** [range n] for an integer [n]: empty when [n <= 0]. *)
Definition range (n : Z) : list Z := map Z.of_nat (seq 0 (Z.to_nat n)).

(** Bytes of one [int64] item. *)
Definition itemsize : Z := 8.

(** [as_strided(a, shape, strides)]: the item at [(i, j)] is read at byte
    offset [i * strides[0] + j * strides[1]] of the buffer of [a].  A
    negative dimension is a [ValueError].  A read past the end of the buffer
    is undefined in numpy; here it yields 0, and [windows] never does it. *)
Definition as_strided (a : list Z) (shape strides : Z * Z) : result ndarray :=
  let '(n, w) := shape in
  let '(s0, s1) := strides in
  if (n <? 0) || (w <? 0) then Raise ValueError
  else Ok {| ncols := Z.to_nat w;
             rows := map (fun i =>
                       map (fun j => nth (Z.to_nat ((i * s0 + j * s1) / itemsize)) a 0)
                           (range w))
                     (range n) |}.

(** [np.flip(m, 0)]: the rows in the opposite order. *)
Definition flip0 (m : ndarray) : ndarray :=
  {| ncols := ncols m; rows := rev (rows m) |}.

(** [m[:k]]: a negative stop counts from the end. *)
Definition slice_to (k : Z) (m : ndarray) : ndarray :=
  let stop := if k <? 0 then Z.max 0 (k + Z.of_nat (nrows m)) else k in
  {| ncols := ncols m; rows := firstn (Z.to_nat stop) (rows m) |}.

(** An index into an axis of length [w]: a negative one counts from the
    end, and one outside the axis is an [IndexError]. *)
Definition normalize_index (j : Z) (w : nat) : result nat :=
  let j' := if j <? 0 then j + Z.of_nat w else j in
  if (j' <? 0) || (Z.of_nat w <=? j') then Raise IndexError
  else Ok (Z.to_nat j').

(** [m[:, j]]: the index is checked against the shape, whatever the number
    of rows. *)
Definition column (j : Z) (m : ndarray) : result (list Z) :=
  i <- normalize_index j (ncols m) ;;
  Ok (map (fun r => nth i r 0) (rows m)).

(** [np.isin(col, ids)]: one boolean per element of [col]. *)
Definition isin (col ids : list Z) : list bool :=
  map (fun v => existsb (Z.eqb v) ids) col.

(** Selection by a boolean mask. *)
Fixpoint compress {A : Type} (mask : list bool) (l : list A) : list A :=
  match mask, l with
  | b :: mask', x :: l' =>
      if b then x :: compress mask' l' else compress mask' l'
  | _, _ => []
  end.

(** [m[mask]]: the rows whose mask entry is [True]; the mask must have one
    entry per row. *)
Definition mask_rows (m : ndarray) (mask : list bool) : result ndarray :=
  if Nat.eqb (length mask) (nrows m)
  then Ok {| ncols := ncols m; rows := compress mask (rows m) |}
  else Raise IndexError.

(** [np.linspace(start, stop, num)] with the end point included, in exact
    arithmetic: [num] samples [start + i * step] with
    [step = (stop - start) / (num - 1)], the last one set to [stop]. *)
Definition set_last {A : Type} (l : list A) (x : A) : list A :=
  match l with
  | [] => []
  | _ => removelast l ++ [x]
  end.

Definition linspace (start stop : Q) (num : nat) : list Q :=
  let div := inject_Z (Z.of_nat (num - 1)) in
  let step := ((stop - start) / div)%Q in
  let y := map (fun i => (start + inject_Z (Z.of_nat i) * step)%Q) (seq 0 num) in
  if (1 <? num)%nat then set_last y stop else y.

(** [int(q)]: truncation toward zero. *)
Definition int (q : Q) : Z := Z.quot (Qnum q) (Zpos (Qden q)).

End Np.

(** ** analysis/compare_conditional_entropy.py *)

Module Analysis.
Import Np.

Definition NUM_TICKS : nat := 4.

(** Modelled from the spec: [prep.num_tokens_in_window] is an attribute of
    preppy's [FlexiblePrep], which is not among the sources; a window is
    "of length context_size + 1". *)
Definition num_tokens_in_window (context_size : Z) : Z := context_size + 1.

(** Lines 58-61: the matrix of windows over the token stream. *)
Definition num_possible_windows (token_ids : list Z) (context_size : Z) : Z :=
  Z.of_nat (length token_ids) - num_tokens_in_window context_size.

Definition windows (token_ids : list Z) (context_size : Z) : result ndarray :=
  let shape := (num_possible_windows token_ids context_size,
                num_tokens_in_window context_size) in
  as_strided token_ids shape (8, 8).

(** Line 64: [[int(i) for i in np.linspace(0, len(windows), NUM_TICKS + 1)][1:]]. *)
Definition num_windows_list_of (len_windows : nat) : list Z :=
  tl (map int (linspace 0 (inject_Z (Z.of_nat len_windows)) (NUM_TICKS + 1))).

(** [d[k]] on a dict given by its items: a missing key is a [KeyError]. *)
Fixpoint getitem (d : list (string * Z)) (k : string) : result Z :=
  match d with
  | [] => Raise KeyError
  | (k', v) :: d' => if String.eqb k' k then Ok v else getitem d' k
  end.

Section CollectData.

(** The value type of the estimator and pyitlib's
    [drv.entropy_conditional], which may raise. *)
Variable E : Type.
Variable entropy_conditional : list Z -> list Z -> result E.

(** The module-level names [collect_data] reads. *)
Variable w2id : list (string * Z).
Variable probes : list string.
Variable num_windows_list : list Z.

(** Lines 79-80: the rows of [ws] that hold a probe before the target. *)
Definition probe_windows_of (ws : ndarray) : result ndarray :=
  col <- column (-2) ws ;;
  ids <- mapM (getitem w2id) probes ;;
  let row_ids := isin col ids in
  mask_rows ws row_ids.

(** Lines 75-86: the body of the loop for one cumulative size. *)
Definition cei_of (windows : ndarray) (num_windows : Z) : result E :=
  let ws := slice_to num_windows windows in
  probe_windows <- probe_windows_of ws ;;
  x <- column (-2) probe_windows ;;
  y <- column (-1) probe_windows ;;
  entropy_conditional x y.

(** Lines 72-92: the loop, with [ce] as its accumulator. *)
Fixpoint collect_loop (windows : ndarray) (sizes : list Z) (ce : list E)
  : result (list E) :=
  match sizes with
  | [] => Ok ce
  | num_windows :: sizes' =>
      cei <- cei_of windows num_windows ;;
      collect_loop windows sizes' (ce ++ [cei])
  end.

Definition collect_data (windows : ndarray) (reverse : bool) : result (list E) :=
  let windows := if reverse then flip0 windows else windows in
  collect_loop windows num_windows_list [].

(** *** The contract in the words of the specification *)

Definition second_to_last (r : list Z) : Z := nth (length r - 2) r 0.
Definition last_column (r : list Z) : Z := nth (length r - 1) r 0.

(** The rows of the [k]-row prefix whose second-to-last entry is the token
    id of a probe word. *)
Definition probe_rows_spec (ids : list Z) (W : list (list Z)) (k : nat)
  : list (list Z) :=
  filter (fun r => existsb (Z.eqb (second_to_last r)) ids) (firstn k W).

(** Conditional entropy of the probe word given the next word over
    exactly those rows. *)
Definition cei_spec (ids : list Z) (W : list (list Z)) (k : nat) : result E :=
  let kept := probe_rows_spec ids W k in
  entropy_conditional (map second_to_last kept) (map last_column kept).

End CollectData.

End Analysis.

(** ** provident/job.py *)

Module Job.

(** The optimizers [main] knows. *)
Inductive Optimizer : Type :=
| Adagrad
| SGD.

(** What the loop prints: line 136, line 152 and line 157.  The elapsed
    minutes of line 158 depend on the clock and are left out. *)
Inductive event (float : Type) : Type :=
| Training (train_mb eval_mb : Z)
| Metric (k : string) (v : float)
| Completed (tick : nat).

Arguments Training {float} train_mb eval_mb.
Arguments Metric {float} k v.
Arguments Completed {float} tick.

Section Driver.

(** Python floats, a minibatch of windows, and the network with its
    parameters and the state of its optimizer. *)
Variables float batch RNN : Type.

(** Lines 26-44. *)
Record Params : Type := {
  shuffle_sentences : bool;
  corpus : string;
  num_types : Z;
  num_parts : Z;
  context_size : Z;
  flavor : string;
  hidden_size : Z;
  reverse : bool;
  sliding : bool;
  num_iterations : list Z;
  batch_size : Z;
  lr : float;
  optimizer : string;
  exclude_number_words : bool
}.

(** What [main] reads of preppy's [FlexiblePrep]: the minibatch markers of
    the ticks, the number of minibatches between two ticks, and the
    batches [generate_batches()] yields, in order. *)
Record Prep : Type := {
  eval_mbs : list Z;
  num_mbs_per_eval : nat;
  generate_batches : list batch
}.

(** The dictionary [performance], in insertion order. *)
Definition Performance : Type := list (string * list float).

(** [pd.Series(v, index=...)] with its name. *)
Record Series : Type := {
  name : string;
  values : list float;
  index : list Z
}.

(** The collaborators of [main] that the sources do not contain:
    [provident.configs.Eval], the construction of the training prep for a
    number of evaluations (lines 58-75), the fresh network (lines 110-114),
    one forward and backward step (lines 182-195) and the four updates of
    [provident.evaluation]. *)
Record Env : Type := {
  num_total_ticks : nat;
  num_start_ticks : Z;
  tick_step : Z;
  make_train_prep : Params -> nat -> Prep;
  new_model : Params -> RNN;
  train_step : Optimizer -> RNN -> batch -> RNN;
  update_cs_performance : Performance -> RNN -> Prep -> Performance;
  update_dp_performance : Performance -> RNN -> Prep -> Performance;
  update_pp_performance : Performance -> RNN -> Prep -> Performance;
  update_ba_performance : Performance -> RNN -> Prep -> Performance
}.

(** The mutable objects [main] shares with [train_on_corpus]: the model,
    what is left of [windows_generator], and the console. *)
Record world : Type := {
  model : RNN;
  windows_generator : list batch;
  stdout : list (event float)
}.

(** Computations that read and write the world and may raise. *)
Definition prog (A : Type) : Type := world -> result A * world.

Definition ret {A : Type} (a : A) : prog A := fun w => (Ok a, w).

Definition pbind {A B : Type} (c : prog A) (k : A -> prog B) : prog B :=
  fun w =>
    match c w with
    | (Ok a, w') => k a w'
    | (Raise e, w') => (Raise e, w')
    end.

Definition print (ev : event float) : prog unit :=
  fun w => (Ok tt, {| model := model w;
                      windows_generator := windows_generator w;
                      stdout := stdout w ++ [ev] |}).

Definition lift {A : Type} (r : result A) : prog A :=
  fun w => (r, w).

(** A [for] loop over a list that threads the local variables. *)
Fixpoint for_each {A S : Type} (body : A -> S -> prog S) (l : list A) (s : S)
  : prog S :=
  match l with
  | [] => ret s
  | a :: l' => pbind (body a s) (for_each body l')
  end.

Definition enumerate {A : Type} (l : list A) : list (nat * A) :=
  combine (seq 0 (length l)) l.

Variable env : Env.

(** Lines 173-196: [islice] draws at most [num_mbs_per_eval] batches from
    the shared generator, and the model takes one step on each. *)
Definition train_on_corpus (opt : Optimizer) (prep : Prep) : prog unit :=
  fun w =>
    let n := num_mbs_per_eval prep in
    (Ok tt, {| model := fold_left (train_step env opt)
                                  (firstn n (windows_generator w)) (model w);
               windows_generator := skipn n (windows_generator w);
               stdout := stdout w |}).

(** Lines 118-123. *)
Definition select_optimizer (params : Params) : result Optimizer :=
  if String.eqb (optimizer params) "adagrad" then Ok Adagrad
  else if String.eqb (optimizer params) "sgd" then Ok SGD
  else Raise AttributeError.

(** Line 141: [tick < num_start_ticks or tick % tick_step == 0]; the
    remainder is taken only when the first test fails. *)
Definition scheduled (tick : nat) : result bool :=
  if Z.of_nat tick <? num_start_ticks env then Ok true
  else if tick_step env =? 0 then Raise ZeroDivisionError
  else Ok (Z.of_nat tick mod tick_step env =? 0).

(** The local variables of [main] that the loop changes. *)
Record locals : Type := {
  train_mb : Z;
  performance_mbs : list Z;
  performance : Performance
}.

(** Lines 149-152: the latest value of every series that has one. *)
Definition print_latest (perf : Performance) : prog unit :=
  fun w => (Ok tt, {| model := model w;
                      windows_generator := windows_generator w;
                      stdout := stdout w ++
                        flat_map (fun kv =>
                           match rev (snd kv) with
                           | [] => []
                           | v :: _ => [Metric (fst kv) v]
                           end) perf |}).

(** Lines 134-138. *)
Definition train_phase (opt : Optimizer) (train_prep : Prep)
    (tick : nat) (eval_mb : Z) (s : locals) : prog locals :=
  if Nat.eqb tick 0 then ret s
  else
    pbind (print (Training (train_mb s) eval_mb)) (fun _ =>
    pbind (train_on_corpus opt train_prep) (fun _ =>
    ret {| train_mb := train_mb s + Z.of_nat (num_mbs_per_eval train_prep);
           performance_mbs := performance_mbs s;
           performance := performance s |})).

(** Lines 141-153. *)
Definition eval_phase (train_prep : Prep) (tick : nat) (eval_mb : Z)
    (s : locals) : prog locals :=
  pbind (lift (scheduled tick)) (fun due =>
  if due : bool then
    fun w =>
      let p1 := update_cs_performance env (performance s) (model w) train_prep in
      let p2 := update_dp_performance env p1 (model w) train_prep in
      let p3 := update_pp_performance env p2 (model w) train_prep in
      let p4 := update_ba_performance env p3 (model w) train_prep in
      pbind (print_latest p4) (fun _ =>
      ret {| train_mb := train_mb s;
             performance_mbs := performance_mbs s ++ [eval_mb];
             performance := p4 |}) w
  else ret s).

(** Lines 133-159: one iteration of the loop. *)
Definition tick_body (opt : Optimizer) (train_prep : Prep)
    (te : nat * Z) (s : locals) : prog locals :=
  let '(tick, eval_mb) := te in
  pbind (train_phase opt train_prep tick eval_mb s) (fun s1 =>
  pbind (eval_phase train_prep tick eval_mb s1) (fun s2 =>
  pbind (print (Completed tick)) (fun _ =>
  ret s2))).

(** [pd.Series(v, index=index)]: the lengths must agree. *)
Definition make_series (k : string) (v : list float) (idx : list Z)
  : result Series :=
  if Nat.eqb (length v) (length idx)
  then Ok {| name := k; values := v; index := idx |}
  else Raise ValueError.

(** Lines 162-168. *)
Fixpoint collect_series (items : Performance) (mbs : list Z) (res : list Series)
  : result (list Series) :=
  match items with
  | [] => Ok res
  | (k, v) :: items' =>
      match v with
      | [] => collect_series items' mbs res
      | _ => s <- make_series k v mbs ;; collect_series items' mbs (res ++ [s])
      end
  end.

Definition initial_locals : locals :=
  {| train_mb := 0;
     performance_mbs := [];
     performance := [("train_pp"%string, []); ("test_pp"%string, [])] |}.

(** The world when the loop is entered: line 86 creates the generator,
    which yields nothing until it is asked. *)
Definition initial_world (params : Params) : world :=
  {| model := new_model env params;
     windows_generator :=
       generate_batches (make_train_prep env params (num_total_ticks env));
     stdout := [] |}.

(** Lines 132-159: the loop over the first [k] ticks, from the start. *)
Definition run_ticks (opt : Optimizer) (params : Params) (k : nat)
  : result locals * world :=
  let train_prep := make_train_prep env params (num_total_ticks env) in
  for_each (tick_body opt train_prep)
           (firstn k (enumerate (eval_mbs train_prep)))
           initial_locals (initial_world params).

(** Lines 53-170. *)
Definition main (params : Params) : result (list Series) * world :=
  let train_prep := make_train_prep env params (num_total_ticks env) in
  pbind (lift (select_optimizer params)) (fun opt =>
  pbind (for_each (tick_body opt train_prep)
                  (enumerate (eval_mbs train_prep)) initial_locals) (fun s =>
  lift (collect_series (performance s) (performance_mbs s) [])))
  (initial_world params).

End Driver.

Arguments ret {float batch RNN A} a.
Arguments lift {float batch RNN A} r.
Arguments pbind {float batch RNN A B} c k.
Arguments for_each {float batch RNN A S} body l s.

End Job.

(** ** provident/evaluation.py *)

Module Evaluation.
Import Job.

Section Updates.

Variables float batch RNN : Type.

(** [perf.setdefault(k, []).append(v)]: the series of [k] grows by [v];
    a new key goes to the end of the dictionary. *)
Fixpoint append_score (k : string) (v : float) (perf : Performance float)
  : Performance float :=
  match perf with
  | [] => [(k, [v])]
  | (k', vs) :: perf' =>
      if String.eqb k' k then (k', vs ++ [v]) :: perf'
      else (k', vs) :: append_score k v perf'
  end.

(** The series of [k], empty when the key is absent. *)
Fixpoint series_of (k : string) (perf : Performance float) : list float :=
  match perf with
  | [] => []
  | (k', vs) :: perf' => if String.eqb k' k then vs else series_of k perf'
  end.

(** The scores of the five metrics for a model at a point of training:
    the scorers of categoryeval and the perplexity on the two preps. *)
Record Scores : Type := {
  calc_cs : RNN -> Prep batch -> float;
  calc_dp : RNN -> Prep batch -> float;
  calc_train_pp : RNN -> Prep batch -> float;
  calc_test_pp : RNN -> Prep batch -> float;
  calc_ba : RNN -> Prep batch -> float
}.

Variable sc : Scores.

(** Modelled from the spec: [provident/evaluation.py] is not among the
    sources.  The loop "evaluates four probes and appends results", and the
    performance record maps each metric name (category spread,
    distributional purity, train and test perplexity, balanced accuracy)
    to "an ordered sequence of scalar values, one appended per tick at
    which that metric was evaluated". *)
Definition update_cs_performance (perf : Performance float) (m : RNN)
    (prep : Prep batch) : Performance float :=
  append_score "cs" (calc_cs sc m prep) perf.

Definition update_dp_performance (perf : Performance float) (m : RNN)
    (prep : Prep batch) : Performance float :=
  append_score "dp" (calc_dp sc m prep) perf.

Definition update_pp_performance (perf : Performance float) (m : RNN)
    (prep : Prep batch) : Performance float :=
  append_score "test_pp" (calc_test_pp sc m prep)
    (append_score "train_pp" (calc_train_pp sc m prep) perf).

Definition update_ba_performance (perf : Performance float) (m : RNN)
    (prep : Prep batch) : Performance float :=
  append_score "ba" (calc_ba sc m prep) perf.

(** The names of the series the four updates write. *)
Definition metric_names : list string :=
  ["cs"; "dp"; "train_pp"; "test_pp"; "ba"]%string.

(** An environment whose four updates are the ones above. *)
Definition with_evaluation (env : Env float batch RNN) : Env float batch RNN :=
  {| num_total_ticks := num_total_ticks env;
     num_start_ticks := num_start_ticks env;
     tick_step := tick_step env;
     make_train_prep := make_train_prep env;
     new_model := new_model env;
     train_step := train_step env;
     Job.update_cs_performance := update_cs_performance;
     Job.update_dp_performance := update_dp_performance;
     Job.update_pp_performance := update_pp_performance;
     Job.update_ba_performance := update_ba_performance |}.

End Updates.

End Evaluation.

(** ** Notions the properties of the driver are stated with *)

Module JobSpec.
Import Job.

Section Schedule.

Variables float batch RNN : Type.
Variable env : Env float batch RNN.

(** A tick at which the probes are due: among the first
    [num_start_ticks], or a multiple of [tick_step]. *)
Definition due (tick : nat) : Prop :=
  Z.of_nat tick < num_start_ticks env \/ (tick_step env | Z.of_nat tick).

Definition dueb (tick : nat) : bool :=
  (Z.of_nat tick <? num_start_ticks env)
  || (Z.of_nat tick mod tick_step env =? 0).



End Schedule.

(** The ticks whose iteration ran to its end, in the order of the console. *)
Definition completed_ticks (float : Type) (out : list (event float)) : list nat :=
  flat_map (fun ev => match ev with Completed t => [t] | _ => [] end) out.

End JobSpec.

(** ** provident/job.py: the parameter class, lines 26-50 *)

Module ParamsClass.

(** The types the validators name. *)
Inductive pytype : Type :=
| TBool
| TInt
| TFloat
| TStr
| TTuple.

(** The result of the construction: an instance or the [TypeError] of the
    call or of a validator. *)
Inductive built (A : Type) : Type :=
| Built (a : A)
| TypeError.

Arguments Built {A} a.
Arguments TypeError {A}.

Section Values.

Variable float : Type.

(** The Python values a parameter may hold. *)
#[warnings="-register-all"] Inductive pyval : Type :=
| PyNone
| PyBool (b : bool)
| PyInt (z : Z)
| PyFloat (f : float)
| PyStr (s : string)
| PyTuple (items : list pyval)
| PyList (items : list pyval).

(** [isinstance(v, t)]: [bool] is a subclass of [int]. *)
Definition isinstance (v : pyval) (t : pytype) : bool :=
  match t, v with
  | TBool, PyBool _ => true
  | TInt, PyInt _ => true
  | TInt, PyBool _ => true
  | TFloat, PyFloat _ => true
  | TStr, PyStr _ => true
  | TTuple, PyTuple _ => true
  | _, _ => false
  end.

(** A dictionary with string keys, by its items. *)
Definition dict : Type := list (string * pyval).

Fixpoint lookup (d : dict) (k : string) : option pyval :=
  match d with
  | [] => None
  | (k', v) :: d' => if String.eqb k' k then Some v else lookup d' k
  end.

(** [d[k] = v]: the value of an existing key is replaced in place, a new
    key goes to the end. *)
Fixpoint setitem (k : string) (v : pyval) (d : dict) : dict :=
  match d with
  | [] => [(k, v)]
  | (k', v') :: d' =>
      if String.eqb k' k then (k', v) :: d' else (k', v') :: setitem k v d'
  end.

Definition mem (k : string) (ks : list string) : bool :=
  existsb (String.eqb k) ks.

(** Lines 28-44: the attributes and the type each validator asks for. *)
Definition fields : list (string * pytype) :=
  [("shuffle_sentences", TBool); ("corpus", TStr); ("num_types", TInt);
   ("num_parts", TInt); ("context_size", TInt); ("flavor", TStr);
   ("hidden_size", TInt); ("reverse", TBool); ("sliding", TBool);
   ("num_iterations", TTuple); ("batch_size", TInt); ("lr", TFloat);
   ("optimizer", TStr); ("exclude_number_words", TBool)]%string.

(** Line 49: the keys [from_param2val] leaves out. *)
Definition bookkeeping : list string :=
  ["job_name"; "param_name"; "save_path"; "project_path"]%string.

(** Binding keyword arguments to the parameters of the generated
    [__init__]: every parameter needs its argument. *)
Fixpoint bind_arguments (fs : list (string * pytype)) (kwargs : dict)
  : option dict :=
  match fs with
  | [] => Some []
  | (name, _) :: fs' =>
      match lookup kwargs name, bind_arguments fs' kwargs with
      | Some v, Some attrs => Some ((name, v) :: attrs)
      | _, _ => None
      end
  end.

(** The validators, run on the assigned attributes in the order of the
    class body. *)
Fixpoint validate (fs : list (string * pytype)) (attrs : dict) : bool :=
  match fs, attrs with
  | [], [] => true
  | (_, t) :: fs', (_, v) :: attrs' => isinstance v t && validate fs' attrs'
  | _, _ => false
  end.

(** The call of a class with the attributes [fs] on keyword arguments: an
    unexpected keyword, a missing argument and a failed validator are
    [TypeError]s. *)
Definition init (fs : list (string * pytype)) (kwargs : dict) : built dict :=
  if forallb (fun kv => mem (fst kv) (map fst fs)) kwargs
  then match bind_arguments fs kwargs with
       | Some attrs => if validate fs attrs then Built attrs else TypeError
       | None => TypeError
       end
  else TypeError.

(** Lines 46-50. *)
Definition from_param2val (param2val : dict) : built dict :=
  let kwargs := filter (fun kv => negb (mem (fst kv) bookkeeping)) param2val in
  init fields kwargs.

(** An attribute of an instance built from [d]: it carries the name of
    the field, the value [d] gives that name, and this value has the type
    the validator of the field names. *)
Definition assigned (d : dict) (f : string * pytype) (a : string * pyval) : Prop :=
  fst a = fst f /\
  lookup d (fst f) = Some (snd a) /\
  isinstance (snd a) (snd f) = true.

End Values.

Arguments PyNone {float}.
Arguments PyBool {float} b.
Arguments PyInt {float} z.
Arguments PyStr {float} s.

End ParamsClass.

(** ** provident/job.py: the excluded probes, lines 88-91 *)

Module Words.

Definition newline : Ascii.ascii := Ascii.ascii_of_nat 10.

(** [s.split("\n")]. *)
Fixpoint split_newline (s : string) : list string :=
  match s with
  | EmptyString => [EmptyString]
  | String c s' =>
      if Ascii.eqb c newline then EmptyString :: split_newline s'
      else match split_newline s' with
           | [] => [String c EmptyString]
           | piece :: pieces => String c piece :: pieces
           end
  end.

(** ["\n".join(words)]. *)
Definition join_newline (words : list string) : string :=
  String.concat (String newline EmptyString) words.

(** Lines 88-91, for the text that [read()] returns. *)
Definition excluded_probes (exclude_number_words : bool) (text : string)
  : option (list string) :=
  if exclude_number_words then Some (split_newline text) else None.

(** The number of newline characters of a text. *)
Fixpoint count_newlines (s : string) : nat :=
  match s with
  | EmptyString => 0
  | String c s' => (if Ascii.eqb c newline then 1 else 0) + count_newlines s'
  end.

(** A word that holds no newline. *)
Fixpoint one_line (s : string) : bool :=
  match s with
  | EmptyString => true
  | String c s' => negb (Ascii.eqb c newline) && one_line s'
  end.

End Words.

(** ** provident/job.py: inputs and targets of a batch, lines 182-187 *)

Module Batch.
Import Np.

(** [np.split(windows, [c], axis=1)] for [c >= 0]: the columns before [c]
    and the columns from [c] on. *)
Definition split_columns (c : nat) (m : ndarray) : ndarray * ndarray :=
  ({| ncols := Nat.min c (ncols m); rows := map (firstn c) (rows m) |},
   {| ncols := ncols m - c; rows := map (skipn c) (rows m) |}).

(** What is left of a two-dimensional array when [np.squeeze] has removed
    its axes of length one. *)
Inductive squeezed : Type :=
| Scalar0 (z : Z)
| Vector1 (v : list Z)
| Matrix2 (m : ndarray).

Definition squeeze (m : ndarray) : squeezed :=
  match Nat.eqb (nrows m) 1, Nat.eqb (ncols m) 1 with
  | true, true => Scalar0 (nth 0 (nth 0 (rows m) []) 0)
  | false, true => Vector1 (map (fun r => nth 0 r 0) (rows m))
  | true, false => Vector1 (nth 0 (rows m) [])
  | false, false => Matrix2 m
  end.

(** Lines 182-187: the inputs, the targets and the batch size the model is
    given. *)
Definition inputs_targets (context_size : nat) (windows : ndarray)
  : ndarray * squeezed * nat :=
  let '(x, y) := split_columns context_size windows in
  (x, squeeze y, nrows windows).

End Batch.

(** ** A parameter dictionary *)

Module ParamsDemo.
Import ParamsClass.

Definition param2val : dict Z :=
  [("job_name", PyStr "job_0"); ("param_name", PyStr "param_1");
   ("save_path", PyStr "runs"); ("project_path", PyStr "research");
   ("shuffle_sentences", PyBool false); ("corpus", PyStr "childes");
   ("num_types", PyInt 4096); ("num_parts", PyInt 2);
   ("context_size", PyInt 7); ("flavor", PyStr "srn");
   ("hidden_size", PyInt 512); ("reverse", PyBool false);
   ("sliding", PyBool false); ("num_iterations", PyTuple [PyInt 20; PyInt 20]);
   ("batch_size", PyInt 64); ("lr", PyFloat 1); ("optimizer", PyStr "adagrad");
   ("exclude_number_words", PyBool true)]%string.

End ParamsDemo.

(** ** Notions the properties of the returned series are stated with *)

Module SeriesSpec.
Import Job.

Section Series.

Variable float : Type.

(** A series that has at least one value. *)
Definition has_values (kv : string * list float) : bool :=
  match snd kv with
  | [] => false
  | _ :: _ => true
  end.

(** A series that is empty or holds one value per marker. *)
Definition fits (mbs : list Z) (kv : string * list float) : bool :=
  negb (has_values kv) || Nat.eqb (length (snd kv)) (length mbs).

(** The series of an item of the dictionary over the markers. *)
Definition series_over (mbs : list Z) (kv : string * list float) : Series float :=
  {| name := fst kv; values := snd kv; index := mbs |}.

End Series.

End SeriesSpec.

(** ** A small corpus for the analysis

    Two probe words with the token ids 3 and 5, and windows of three
    tokens. *)

Module AnalysisDemo.

Definition w2id : list (string * Z) := [("cat"%string, 3); ("dog"%string, 5)].

Definition probes : list string := ["cat"%string; "dog"%string].

Definition three_windows : Np.ndarray :=
  Np.mk_ndarray 3 [[1; 3; 2]; [3; 2; 5]; [2; 5; 1]].

Definition four_windows : Np.ndarray :=
  Np.mk_ndarray 3 [[1; 3; 2]; [3; 2; 5]; [2; 5; 1]; [5; 1; 3]].

End AnalysisDemo.

(** ** A small run of the driver

    Four ticks of three minibatches each; the probes are due at the first
    two ticks and at every second one.  A batch is its number, the network
    is the list of the batches it has been trained on, and every score is
    the number of steps taken so far. *)

Module Demo.
Import Job.

Definition prep_for (n : nat) : Prep Z :=
  {| eval_mbs := map (fun t => 3 * Z.of_nat t) (seq 0 (S n));
     num_mbs_per_eval := 3;
     generate_batches := map Z.of_nat (seq 0 (3 * n)) |}.

Definition steps_taken (m : list Z) (_ : Prep Z) : Z := Z.of_nat (length m).

Definition scores : Evaluation.Scores Z Z (list Z) :=
  {| Evaluation.calc_cs := steps_taken;
     Evaluation.calc_dp := steps_taken;
     Evaluation.calc_train_pp := steps_taken;
     Evaluation.calc_test_pp := steps_taken;
     Evaluation.calc_ba := steps_taken |}.

Definition env : Env Z Z (list Z) :=
  {| num_total_ticks := 4;
     num_start_ticks := 2;
     tick_step := 2;
     make_train_prep := fun _ n => prep_for n;
     new_model := fun _ => [];
     train_step := fun _ m b => m ++ [b];
     update_cs_performance := Evaluation.update_cs_performance scores;
     update_dp_performance := Evaluation.update_dp_performance scores;
     update_pp_performance := Evaluation.update_pp_performance scores;
     update_ba_performance := Evaluation.update_ba_performance scores |}.

Definition params (opt : string) : Params Z :=
  {| shuffle_sentences := false;
     corpus := "childes";
     num_types := 4096;
     num_parts := 2;
     context_size := 7;
     flavor := "srn";
     hidden_size := 512;
     reverse := false;
     sliding := false;
     num_iterations := [20; 20];
     batch_size := 64;
     lr := 1;
     optimizer := opt;
     exclude_number_words := true |}.

End Demo.

(** ** Variants of the small run

    The same four ticks of three minibatches, with a warm-up, a step and a
    number of batches in the generator of one's choice. *)

Module DemoMore.
Import Job.

Definition prep_with (batches : nat) (n : nat) : Prep Z :=
  {| eval_mbs := map (fun t => 3 * Z.of_nat t) (seq 0 (S n));
     num_mbs_per_eval := 3;
     generate_batches := map Z.of_nat (seq 0 batches) |}.

Definition env_with (start step : Z) (batches : nat) : Env Z Z (list Z) :=
  {| num_total_ticks := 4;
     num_start_ticks := start;
     tick_step := step;
     make_train_prep := fun _ n => prep_with batches n;
     new_model := fun _ => [];
     train_step := fun _ m b => m ++ [b];
     update_cs_performance := Evaluation.update_cs_performance Demo.scores;
     update_dp_performance := Evaluation.update_dp_performance Demo.scores;
     update_pp_performance := Evaluation.update_pp_performance Demo.scores;
     update_ba_performance := Evaluation.update_ba_performance Demo.scores |}.

End DemoMore.

(** ** A small run over markers of one's choice

    Four ticks are asked for, with a warm-up of two ticks and a step of
    two; the prep delivers the markers it is given and twelve batches,
    three between two ticks. *)

Module DemoMarkers.
Import Job.



End DemoMarkers.

(** ** Notions the properties of the analysis are stated with *)

Module AnalysisSpec.
Import Np.

(** The window that starts at token [i]. *)
Definition window_at (token_ids : list Z) (w i : nat) : list Z :=
  firstn w (skipn i token_ids).

(** The start positions at which a window of [w] tokens fits in the
    stream. *)
Definition admissible_starts (token_ids : list Z) (w : nat) : list nat :=
  filter (fun i => (i + w <=? length token_ids)%nat) (seq 0 (S (length token_ids))).

(** The last [k] rows, in their original order. *)
Definition last_rows (k : nat) (m : ndarray) : list (list Z) :=
  skipn (nrows m - k) (rows m).

(** Differences of neighbours, and the test that they are all the same. *)
Fixpoint gaps (l : list Z) : list Z :=
  match l with
  | a :: (b :: _) as t => (b - a) :: gaps t
  | _ => []
  end.

Definition equally_spaced (l : list Z) : bool :=
  match gaps l with
  | [] => true
  | d :: ds => forallb (Z.eqb d) ds
  end.

(** An estimator that reads its samples as a multiset of pairs. *)
Definition PermInvariant (E : Type) (est : list Z -> list Z -> result E) : Prop :=
  forall x y x' y',
    length x = length y -> length x' = length y' ->
    Permutation (combine x y) (combine x' y') ->
    est x y = est x' y'.

(** The last entry of a list, if any. *)
Definition final (A : Type) (l : list A) : option A :=
  nth_error l (length l - 1).

End AnalysisSpec.

(** ** A reference estimator

    pyitlib is not part of the repository.  The plug-in estimate of
    [H(X | Y)] over the reals serves as an instance of the estimator
    interface: with [c(x, y)] the number of samples equal to [(x, y)] and
    [c(y)] the number of samples whose second component is [y], it is the
    mean over the samples of [log2 (c(y) / c(x, y))].  Sequences of
    different lengths are rejected. *)

Module Plugin.

Definition pair_eq_dec (p q : Z * Z) : {p = q} + {p <> q}.
Proof. decide equality; apply Z.eq_dec. Defined.

Definition term (ps : list (Z * Z)) (p : Z * Z) : R :=
  (ln (INR (count_occ Z.eq_dec (map snd ps) (snd p))
       / INR (count_occ pair_eq_dec ps p)) / ln 2 / INR (length ps))%R.

Definition sumR (l : list R) : R := fold_right Rplus 0%R l.

Definition entropy_conditional (x y : list Z) : result R :=
  if Nat.eqb (length x) (length y)
  then let ps := combine x y in Ok (sumR (map (term ps) ps))
  else Raise ValueError.

End Plugin.

(** * Properties *)

(** ** The error monad *)

Lemma mapM_length (A B : Type) (f : A -> result B) (l : list A) (bs : list B) :
  mapM f l = Ok bs -> length bs = length l.
Proof.
  revert bs; induction l as [|a l IH]; intros bs; simpl.
  - intros [= <-]; reflexivity.
  - destruct (f a) as [b|e]; simpl; [|discriminate].
    destruct (mapM f l) as [bs'|e]; simpl; [|discriminate].
    intros [= <-]; simpl; f_equal; apply IH; reflexivity.
Qed.

Lemma mapM_ext_in (A B : Type) (f g : A -> result B) (l : list A) :
  (forall a, In a l -> f a = g a) -> mapM f l = mapM g l.
Proof.
  induction l as [|a l IH]; intros H; simpl; [reflexivity|].
  rewrite (H a (or_introl eq_refl)), IH; [reflexivity|].
  intros b Hb; apply H; right; exact Hb.
Qed.

(** ** numpy operations *)

Module NpFacts.
Import Np.

Lemma wf_flip0 (m : ndarray) : wf m -> wf (flip0 m).
Proof.
  unfold wf, flip0; simpl; intros H.
  apply Forall_forall; intros r Hr; apply in_rev in Hr.
  exact (proj1 (Forall_forall _ _) H r Hr).
Qed.

Lemma slice_to_In (k : Z) (m : ndarray) (r : list Z) :
  In r (rows (slice_to k m)) -> In r (rows m).
Proof.
  unfold slice_to; cbn [rows].
  set (n := Z.to_nat _); intros H.
  rewrite <- (firstn_skipn n (rows m)); apply in_or_app; left; exact H.
Qed.

Lemma wf_slice_to (k : Z) (m : ndarray) : wf m -> wf (slice_to k m).
Proof.
  unfold wf; intros H.
  apply Forall_forall; intros r Hr.
  apply (proj1 (Forall_forall _ _) H r), (slice_to_In k), Hr.
Qed.

Lemma slice_to_nonneg (k : Z) (m : ndarray) :
  0 <= k -> rows (slice_to k m) = firstn (Z.to_nat k) (rows m).
Proof.
  intros Hk; unfold slice_to; simpl.
  destruct (Z.ltb_spec k 0); [lia|reflexivity].
Qed.

(** On a well-formed array with at least [c] columns, column [-c] is read
    [c] places before the end of each row. *)
Lemma normalize_index_from_end (c w : nat) :
  (1 <= c <= w)%nat -> normalize_index (- Z.of_nat c) w = Ok (w - c)%nat.
Proof.
  intros Hc; unfold normalize_index.
  destruct (Z.ltb_spec (- Z.of_nat c) 0) as [_|H0]; [|lia].
  destruct (Z.ltb_spec (- Z.of_nat c + Z.of_nat w) 0) as [H1|_]; [lia|].
  destruct (Z.leb_spec (Z.of_nat w) (- Z.of_nat c + Z.of_nat w)) as [H2|_]; [lia|].
  simpl; f_equal; lia.
Qed.

Lemma column_from_end (c : nat) (m : ndarray) :
  wf m -> (1 <= c <= ncols m)%nat ->
  column (- Z.of_nat c) m = Ok (map (fun r => nth (length r - c) r 0) (rows m)).
Proof.
  intros Hwf Hc; unfold column.
  rewrite normalize_index_from_end by exact Hc; cbn [bind].
  f_equal; apply map_ext_in; intros r Hr.
  rewrite (proj1 (Forall_forall _ _) Hwf r Hr); reflexivity.
Qed.

Lemma column_flip0 (j : Z) (m : ndarray) :
  column j (flip0 m) = (c <- column j m ;; Ok (rev c)).
Proof.
  unfold column; cbn [flip0 ncols rows].
  destruct (normalize_index j (ncols m)); cbn [bind]; [|reflexivity].
  rewrite map_rev; reflexivity.
Qed.

Lemma slice_to_all (m : ndarray) : slice_to (Z.of_nat (nrows m)) m = m.
Proof.
  unfold slice_to.
  destruct (Z.ltb_spec (Z.of_nat (nrows m)) 0); [lia|].
  rewrite Nat2Z.id; unfold nrows; rewrite firstn_all.
  destruct m; reflexivity.
Qed.

Lemma compress_isin (A : Type) (f : A -> Z) (ids : list Z) (l : list A) :
  compress (isin (map f l) ids) l = filter (fun r => existsb (Z.eqb (f r)) ids) l.
Proof.
  induction l as [|a l IH]; simpl; [reflexivity|].
  destruct (existsb (Z.eqb (f a)) ids); rewrite <- IH; reflexivity.
Qed.

Lemma isin_length (col ids : list Z) : length (isin col ids) = length col.
Proof. unfold isin; apply length_map. Qed.

(** [int] reads the value of the fraction, not its representation. *)
Lemma int_Qeq (p q : Q) : (p == q)%Q -> int p = int q.
Proof.
  unfold Qeq, int; intros H.
  rewrite <- (Z.quot_mul_cancel_r (Qnum p) (Zpos (Qden p)) (Zpos (Qden q))) by lia.
  rewrite <- (Z.quot_mul_cancel_r (Qnum q) (Zpos (Qden q)) (Zpos (Qden p))) by lia.
  rewrite H; f_equal; lia.
Qed.

Lemma int_sample (i n : Z) :
  0 <= i -> 0 <= n ->
  int (0 + inject_Z i * ((inject_Z n - 0) / inject_Z 4)) = i * n / 4.
Proof.
  intros Hi Hn.
  rewrite (@int_Qeq _ (Qmake (i * n) 4)).
  - unfold int; simpl. apply Z.quot_div_nonneg; lia.
  - rewrite (Qmake_Qdiv (i * n) 4), inject_Z_mult; field; discriminate.
Qed.

Lemma int_inject_Z (n : Z) : int (inject_Z n) = n.
Proof. unfold int; simpl; apply Z.quot_1_r. Qed.

End NpFacts.

(** ** The entropy analysis *)

Module AnalysisFacts.
Import Np NpFacts Analysis AnalysisSpec.

Lemma map_range (A : Type) (f : Z -> A) (n : Z) :
  map f (range n) = map (fun i => f (Z.of_nat i)) (seq 0 (Z.to_nat n)).
Proof. unfold range; apply map_map. Qed.

Lemma filter_none (A : Type) (p : A -> bool) (l : list A) :
  (forall a, In a l -> p a = false) -> filter p l = [].
Proof.
  induction l as [|a l IH]; intros H; simpl; [reflexivity|].
  rewrite (H a (or_introl eq_refl)); apply IH.
  intros b Hb; apply H; right; exact Hb.
Qed.

Lemma read_prefix (a : list Z) (w : nat) :
  (w <= length a)%nat -> map (fun j => nth j a 0) (seq 0 w) = firstn w a.
Proof.
  revert a; induction w as [|w IH]; intros a Hw; [reflexivity|].
  destruct a as [|x a]; simpl in Hw; [lia|].
  cbn [seq map firstn nth]; f_equal.
  rewrite <- seq_shift, map_map; simpl.
  apply IH; lia.
Qed.

Lemma strided_row (a : list Z) (w i : nat) :
  (i + w <= length a)%nat ->
  map (fun j => nth (Z.to_nat ((Z.of_nat i * 8 + j * 8) / itemsize)) a 0)
      (range (Z.of_nat w))
  = window_at a w i.
Proof.
  intros H; unfold range, window_at; rewrite Nat2Z.id, map_map.
  rewrite <- read_prefix by (rewrite length_skipn; lia).
  apply map_ext; intros j; rewrite nth_skipn; f_equal.
  unfold itemsize.
  replace (Z.of_nat i * 8 + Z.of_nat j * 8) with ((Z.of_nat i + Z.of_nat j) * 8) by lia.
  rewrite Z.div_mul by lia; lia.
Qed.

Lemma windows_rows (token_ids : list Z) (context_size : Z) :
  0 <= context_size ->
  context_size + 1 <= Z.of_nat (length token_ids) ->
  let w := Z.to_nat (context_size + 1) in
  windows token_ids context_size =
  Ok {| ncols := w;
        rows := map (window_at token_ids w) (seq 0 (length token_ids - w)) |}.
Proof.
  intros Hc Hlen w; unfold windows, as_strided, num_possible_windows,
    num_tokens_in_window.
  destruct (Z.ltb_spec (Z.of_nat (length token_ids) - (context_size + 1)) 0); [lia|].
  destruct (Z.ltb_spec (context_size + 1) 0); [lia|]; simpl orb; cbv iota.
  f_equal; f_equal.
  rewrite map_range.
  replace (Z.to_nat (Z.of_nat (length token_ids) - (context_size + 1)))
    with (length token_ids - w)%nat by lia.
  apply map_ext_in; intros i Hi; apply in_seq in Hi.
  replace (context_size + 1) with (Z.of_nat w) by lia.
  apply strided_row; lia.
Qed.

Lemma admissible_starts_length (token_ids : list Z) (w : nat) :
  (w <= length token_ids)%nat ->
  length (admissible_starts token_ids w) = S (length token_ids - w).
Proof.
  intros Hw; unfold admissible_starts.
  set (n := length token_ids) in *.
  replace (S n) with (S (n - w) + w)%nat by lia.
  rewrite seq_app, filter_app, length_app.
  rewrite forallb_filter_id.
  - rewrite length_seq, filter_none; [simpl; lia|].
    intros i Hi; apply in_seq in Hi.
    apply Nat.leb_gt; lia.
  - apply forallb_forall; intros i Hi; apply in_seq in Hi.
    apply Nat.leb_le; lia.
Qed.

(** *** The matrix of windows *)

(** C10: when the stream holds at least one window, the matrix has exactly
    [len(token_ids) - (context_size + 1)] rows, one fewer than the number of
    windows of that length the stream holds; row [i] is the window that
    starts at token [i]; and every row of every prefix, in either direction,
    is a window that ends before the last token, so the window ending at
    the last token is in none of them. *)
Theorem windows_omit_final_window (token_ids : list Z) (context_size : Z) :
  0 <= context_size ->
  context_size + 1 <= Z.of_nat (length token_ids) ->
  let w := Z.to_nat (context_size + 1) in
  exists ws,
    windows token_ids context_size = Ok ws /\
    Z.of_nat (nrows ws) = Z.of_nat (length token_ids) - (context_size + 1) /\
    S (nrows ws) = length (admissible_starts token_ids w) /\
    (forall i r, nth_error (rows ws) i = Some r -> r = window_at token_ids w i) /\
    forall (reverse : bool) (k : Z) (r : list Z),
      In r (rows (slice_to k (if reverse then flip0 ws else ws))) ->
      exists i, nth_error (rows ws) i = Some r /\
                r = window_at token_ids w i /\
                (i + w < length token_ids)%nat.
Proof.
  intros Hc Hlen w.
  eexists; split; [apply windows_rows; assumption|].
  fold w; unfold nrows; cbn [rows].
  rewrite length_map, length_seq.
  assert (Hrow : forall i r,
    nth_error (map (window_at token_ids w) (seq 0 (length token_ids - w))) i = Some r ->
    r = window_at token_ids w i /\ (i + w < length token_ids)%nat).
  { intros i r Hi.
    rewrite nth_error_map in Hi.
    destruct (nth_error (seq 0 (length token_ids - w)) i) as [j|] eqn:Hj;
      [|discriminate].
    assert (Hlt : (i < length token_ids - w)%nat).
    { rewrite <- (length_seq (length token_ids - w) 0).
      apply nth_error_Some; congruence. }
    rewrite nth_error_nth' with (d := 0%nat) in Hj by (rewrite length_seq; exact Hlt).
    rewrite seq_nth in Hj by exact Hlt.
    injection Hj as <-; injection Hi as <-; split; [reflexivity|lia]. }
  split; [lia|]. split; [rewrite admissible_starts_length; lia|].
  split; [intros i r Hi; apply (Hrow i r Hi)|].
  intros reverse k r Hin.
  assert (Hin' : In r (map (window_at token_ids w) (seq 0 (length token_ids - w)))).
  { apply slice_to_In in Hin; destruct reverse; cbn [flip0 rows] in Hin; [|exact Hin].
    apply in_rev; exact Hin. }
  apply In_nth_error in Hin'; destruct Hin' as [i Hi].
  exists i; split; [exact Hi|]; apply (Hrow i r Hi).
Qed.

Lemma windows_omit_final_window_witness :
  exists ws,
    windows [1; 2; 3; 4; 5; 6; 7; 8; 9; 10; 11] 7 = Ok ws /\
    Z.of_nat (nrows ws) = 3 /\ S (nrows ws) = 4%nat.
Proof.
  destruct (@windows_omit_final_window [1; 2; 3; 4; 5; 6; 7; 8; 9; 10; 11] 7)
    as [ws [H1 [H2 [H3 _]]]]; [lia | simpl; lia |].
  exists ws; split; [exact H1|]; split; [exact H2 | exact H3].
Defined.

(** *** Flipping and slicing *)

(** C4: for [0 <= k <= ] the number of rows, the first [k] rows of the
    flipped matrix are the last [k] rows of the original one, reversed. *)
Theorem flip_prefix_is_reversed_suffix (W : ndarray) (k : Z) :
  0 <= k <= Z.of_nat (nrows W) ->
  rows (slice_to k (flip0 W)) = rev (last_rows (Z.to_nat k) W).
Proof.
  intros [Hk _]; rewrite slice_to_nonneg by exact Hk.
  unfold last_rows, nrows, flip0; cbn [rows]; apply firstn_rev.
Qed.

Lemma flip_prefix_is_reversed_suffix_witness :
  rows (slice_to 2 (flip0 AnalysisDemo.three_windows))
  = rev (last_rows 2 AnalysisDemo.three_windows).
Proof.
  apply (@flip_prefix_is_reversed_suffix AnalysisDemo.three_windows 2).
  simpl; lia.
Defined.

(** *** The cumulative sizes *)

Lemma num_windows_list_closed_form (n : nat) :
  num_windows_list_of n =
  [1 * Z.of_nat n / 4; 2 * Z.of_nat n / 4; 3 * Z.of_nat n / 4; Z.of_nat n].
Proof.
  unfold num_windows_list_of, linspace, NUM_TICKS.
  cbn [Nat.add Nat.ltb Nat.leb seq map Nat.sub set_last removelast app tl].
  change (inject_Z (Z.of_nat 4)) with (inject_Z 4).
  change (Z.of_nat 1) with 1; change (Z.of_nat 2) with 2; change (Z.of_nat 3) with 3.
  rewrite !int_sample by lia.
  rewrite int_inject_Z; reflexivity.
Qed.

(** C5, as the specification words it, fails: a matrix of ten windows is
    measured at 2, 5, 7 and 10 rows. *)
Lemma sizes_not_equally_spaced :
  num_windows_list_of 10 = [2; 5; 7; 10] /\
  ~ (length (num_windows_list_of 10) = 4%nat /\
     equally_spaced (num_windows_list_of 10) = true /\
     last (num_windows_list_of 10) 0 = 10).
Proof.
  split; [reflexivity|].
  intros [_ [H _]]; vm_compute in H; discriminate.
Qed.

(** C5, amended: there are exactly four sizes, the [i]-th is
    [floor(i * n / 4)], the last is the number of windows [n], neighbours
    differ by [floor(n / 4)] or one more, and the sizes are equally spaced
    when [n] is a multiple of four. *)
Theorem sizes_four_truncated_steps (n : nat) :
  let l := num_windows_list_of n in
  l = [1 * Z.of_nat n / 4; 2 * Z.of_nat n / 4; 3 * Z.of_nat n / 4; Z.of_nat n] /\
  length l = 4%nat /\
  last l 0 = Z.of_nat n /\
  Forall (fun d => Z.of_nat n / 4 <= d <= Z.of_nat n / 4 + 1) (gaps l) /\
  (Z.of_nat n mod 4 = 0 -> equally_spaced l = true).
Proof.
  intros l; subst l; rewrite num_windows_list_closed_form.
  split; [reflexivity|]. split; [reflexivity|]. split; [reflexivity|].
  set (m := Z.of_nat n).
  assert (Hm : 0 <= m) by (subst m; lia).
  pose proof (Z.div_mod m 4 ltac:(lia)) as Hdm.
  pose proof (Z.mod_pos_bound m 4 ltac:(lia)) as Hb.
  assert (H1 : 1 * m / 4 = m / 4) by (f_equal; lia).
  assert (Hdiv : forall i q, 4 * q <= i * m < 4 * q + 4 -> i * m / 4 = q).
  { intros i q Hq; symmetry; apply (Z.div_unique (i * m) 4 q (i * m - 4 * q)); lia. }
  split.
  - unfold gaps. rewrite H1.
    assert (H2 : m / 4 + m / 4 <= 2 * m / 4 <= m / 4 + m / 4 + 1).
    { split; [apply Z.div_le_lower_bound; lia|].
      apply Z.lt_succ_r, Z.div_lt_upper_bound; lia. }
    assert (H3 : 3 * (m / 4) <= 3 * m / 4 <= 3 * (m / 4) + 2).
    { split; [apply Z.div_le_lower_bound; lia|].
      apply Z.lt_succ_r, Z.div_lt_upper_bound; lia. }
    assert (H23 : m / 4 <= 3 * m / 4 - 2 * m / 4 <= m / 4 + 1).
    { destruct (Z.eq_dec (m mod 4) 0) as [E|E];
        [|destruct (Z.eq_dec (m mod 4) 1) as [E1|E1];
          [|destruct (Z.eq_dec (m mod 4) 2) as [E2|E2]]].
      - rewrite (Hdiv 2 (2 * (m / 4))), (Hdiv 3 (3 * (m / 4))); lia.
      - rewrite (Hdiv 2 (2 * (m / 4))), (Hdiv 3 (3 * (m / 4))); lia.
      - rewrite (Hdiv 2 (2 * (m / 4) + 1)), (Hdiv 3 (3 * (m / 4) + 1)); lia.
      - rewrite (Hdiv 2 (2 * (m / 4) + 1)), (Hdiv 3 (3 * (m / 4) + 2)); lia. }
    assert (H34 : m / 4 <= m - 3 * m / 4 <= m / 4 + 1).
    { destruct (Z.eq_dec (m mod 4) 0) as [E|E];
        [|destruct (Z.eq_dec (m mod 4) 1) as [E1|E1];
          [|destruct (Z.eq_dec (m mod 4) 2) as [E2|E2]]].
      - rewrite (Hdiv 3 (3 * (m / 4))); lia.
      - rewrite (Hdiv 3 (3 * (m / 4))); lia.
      - rewrite (Hdiv 3 (3 * (m / 4) + 1)); lia.
      - rewrite (Hdiv 3 (3 * (m / 4) + 2)); lia. }
    repeat constructor; lia.
  - intros E.
    rewrite (Hdiv 1 (m / 4)), (Hdiv 2 (2 * (m / 4))), (Hdiv 3 (3 * (m / 4))) by lia.
    unfold equally_spaced, gaps, forallb.
    rewrite !andb_true_r; apply andb_true_iff; split; apply Z.eqb_eq; lia.
Qed.

Lemma sizes_four_truncated_steps_witness :
  num_windows_list_of 8 = [2; 4; 6; 8] /\
  equally_spaced (num_windows_list_of 8) = true.
Proof.
  destruct (sizes_four_truncated_steps 8) as [H [_ [_ [_ Heq]]]].
  split; [rewrite H; reflexivity|apply Heq; reflexivity].
Defined.

(** *** [collect_data] *)

Section CollectDataFacts.

Variable E : Type.
Variable entropy_conditional : list Z -> list Z -> result E.
Variable w2id : list (string * Z).
Variable probes : list string.

Lemma probe_windows_of_filter (ws : ndarray) (ids : list Z) :
  wf ws -> (2 <= ncols ws)%nat ->
  mapM (getitem w2id) probes = Ok ids ->
  probe_windows_of w2id probes ws =
  Ok {| ncols := ncols ws;
        rows := filter (fun r => existsb (Z.eqb (second_to_last r)) ids) (rows ws) |}.
Proof.
  intros Hwf Hw Hids; unfold probe_windows_of.
  change (-2) with (- Z.of_nat 2).
  rewrite (@column_from_end 2 ws Hwf) by lia.
  cbn [bind]; rewrite Hids; cbn [bind].
  unfold mask_rows, nrows; rewrite isin_length, length_map, Nat.eqb_refl.
  f_equal; f_equal; apply (compress_isin second_to_last).
Qed.

Lemma wf_filter (p : list Z -> bool) (m : ndarray) :
  wf m -> wf {| ncols := ncols m; rows := filter p (rows m) |}.
Proof.
  unfold wf; cbn [ncols rows]; intros H.
  apply Forall_forall; intros r Hr; apply filter_In in Hr.
  apply (proj1 (Forall_forall _ _) H r), Hr.
Qed.

Lemma cei_of_spec (windows : ndarray) (ids : list Z) (k : Z) :
  wf windows -> (2 <= ncols windows)%nat ->
  mapM (getitem w2id) probes = Ok ids ->
  0 <= k ->
  cei_of entropy_conditional w2id probes windows k =
  cei_spec entropy_conditional ids (rows windows) (Z.to_nat k).
Proof.
  intros Hwf Hw Hids Hk; unfold cei_of, cei_spec, probe_rows_spec.
  rewrite (@probe_windows_of_filter _ ids) by (try apply wf_slice_to; assumption).
  cbn [bind].
  assert (Hwf' : wf {| ncols := ncols (slice_to k windows);
                       rows := filter (fun r => existsb (Z.eqb (second_to_last r)) ids)
                                      (rows (slice_to k windows)) |})
    by (apply wf_filter, wf_slice_to, Hwf).
  change (-2) with (- Z.of_nat 2); change (-1) with (- Z.of_nat 1).
  rewrite (@column_from_end 2 _ Hwf') by (cbn [ncols slice_to]; lia).
  rewrite (@column_from_end 1 _ Hwf') by (cbn [ncols slice_to]; lia).
  cbn [bind rows]; rewrite slice_to_nonneg by exact Hk; reflexivity.
Qed.

Lemma collect_loop_mapM (windows : ndarray) (sizes : list Z) (ce : list E) :
  collect_loop entropy_conditional w2id probes windows sizes ce =
  (l <- mapM (cei_of entropy_conditional w2id probes windows) sizes ;; Ok (ce ++ l)).
Proof.
  revert ce; induction sizes as [|k sizes IH]; intros ce; simpl.
  - rewrite app_nil_r; reflexivity.
  - destruct (cei_of entropy_conditional w2id probes windows k) as [cei|e];
      simpl; [|reflexivity].
    rewrite IH.
    destruct (mapM (cei_of entropy_conditional w2id probes windows) sizes);
      simpl; [|reflexivity].
    rewrite <- app_assoc; reflexivity.
Qed.

Lemma collect_data_mapM (num_windows_list : list Z) (windows : ndarray)
    (reverse : bool) :
  collect_data entropy_conditional w2id probes num_windows_list windows reverse =
  mapM (cei_of entropy_conditional w2id probes
          (if reverse then flip0 windows else windows)) num_windows_list.
Proof.
  unfold collect_data; rewrite collect_loop_mapM.
  destruct (mapM _ num_windows_list); reflexivity.
Qed.

End CollectDataFacts.

(** C1: on a matrix with at least two columns, with every probe word in the
    vocabulary and non-negative cumulative sizes, for both directions the
    rows [collect_data] keeps at size [k] are exactly the rows of the
    [k]-row prefix whose second-to-last entry is the token id of a probe
    word; the values it computes are the conditional entropies of the
    second-to-last column given the last column over exactly those rows,
    one per cumulative size and in their order. *)
Theorem collect_data_filters_and_measures
    (E : Type) (entropy_conditional : list Z -> list Z -> result E)
    (w2id : list (string * Z)) (probes : list string)
    (num_windows_list : list Z) (windows : ndarray) (reverse : bool)
    (ids : list Z) :
  wf windows -> (2 <= ncols windows)%nat ->
  mapM (getitem w2id) probes = Ok ids ->
  Forall (fun k => 0 <= k) num_windows_list ->
  let directed := if reverse then flip0 windows else windows in
  (forall k, In k num_windows_list ->
     probe_windows_of w2id probes (slice_to k directed) =
     Ok {| ncols := ncols windows;
           rows := probe_rows_spec ids (rows directed) (Z.to_nat k) |}) /\
  collect_data entropy_conditional w2id probes num_windows_list windows reverse =
  mapM (fun k => cei_spec entropy_conditional ids (rows directed) (Z.to_nat k))
       num_windows_list /\
  (forall ce,
     collect_data entropy_conditional w2id probes num_windows_list windows reverse
     = Ok ce ->
     length ce = length num_windows_list).
Proof.
  intros Hwf Hw Hids Hpos directed.
  assert (Hwfd : wf directed)
    by (subst directed; destruct reverse; [apply wf_flip0|]; exact Hwf).
  assert (Hwd : ncols directed = ncols windows)
    by (subst directed; destruct reverse; reflexivity).
  split; [|split].
  - intros k Hk.
    pose proof (proj1 (Forall_forall _ _) Hpos k Hk) as Hk0.
    rewrite (@probe_windows_of_filter w2id probes _ ids)
      by (try apply wf_slice_to; cbn [ncols slice_to]; try lia; assumption).
    unfold probe_rows_spec; rewrite slice_to_nonneg by exact Hk0.
    cbn [ncols slice_to]; rewrite Hwd; reflexivity.
  - rewrite collect_data_mapM; fold directed.
    apply mapM_ext_in; intros k Hk.
    apply cei_of_spec; try assumption; [lia|].
    apply (proj1 (Forall_forall _ _) Hpos k Hk).
  - intros ce Hce; rewrite collect_data_mapM in Hce.
    apply (mapM_length _ _ Hce).
Qed.

Lemma collect_data_filters_and_measures_witness :
  collect_data (fun x y => Ok (x, y)) AnalysisDemo.w2id AnalysisDemo.probes
               [1; 3] AnalysisDemo.three_windows true
  = Ok [([5], [1]); ([5; 3], [1; 2])].
Proof.
  destruct (@collect_data_filters_and_measures _ (fun x y => Ok (x, y))
              AnalysisDemo.w2id AnalysisDemo.probes [1; 3]
              AnalysisDemo.three_windows true [3; 5])
    as [_ [H _]].
  - repeat constructor.
  - simpl; lia.
  - reflexivity.
  - repeat constructor; lia.
  - rewrite H; reflexivity.
Defined.

(** *** The two directions at the full matrix *)

Lemma combine_map_same (A : Type) (f g : A -> Z) (l : list A) :
  combine (map f l) (map g l) = map (fun r => (f r, g r)) l.
Proof. induction l as [|a l IH]; simpl; [|rewrite IH]; reflexivity. Qed.

Section Directions.

Variable E : Type.
Variable entropy_conditional : list Z -> list Z -> result E.
Variable w2id : list (string * Z).
Variable probes : list string.
Hypothesis est_perm : PermInvariant entropy_conditional.

Lemma probe_windows_of_flip0 (ws : ndarray) :
  probe_windows_of w2id probes (flip0 ws) =
  (pw <- probe_windows_of w2id probes ws ;; Ok (flip0 pw)).
Proof.
  unfold probe_windows_of; rewrite column_flip0; unfold column.
  destruct (normalize_index (-2) (ncols ws)) as [i|e]; cbn [bind]; [|reflexivity].
  destruct (mapM (getitem w2id) probes) as [ids|e]; cbn [bind]; [|reflexivity].
  unfold mask_rows, nrows; cbn [flip0 rows ncols].
  rewrite !isin_length, !length_rev, !length_map, Nat.eqb_refl.
  unfold flip0; cbn [bind ncols rows].
  rewrite <- map_rev, !compress_isin, filter_rev; reflexivity.
Qed.

Lemma cei_of_full_flip0 (windows : ndarray) :
  cei_of entropy_conditional w2id probes (flip0 windows) (Z.of_nat (nrows windows))
  = cei_of entropy_conditional w2id probes windows (Z.of_nat (nrows windows)).
Proof.
  unfold cei_of; rewrite slice_to_all.
  replace (nrows windows) with (nrows (flip0 windows))
    by (unfold nrows, flip0; cbn [rows]; apply length_rev).
  rewrite slice_to_all, probe_windows_of_flip0.
  destruct (probe_windows_of w2id probes windows) as [pw|e]; cbn [bind];
    [|reflexivity].
  rewrite !column_flip0; unfold column.
  destruct (normalize_index (-2) (ncols pw)) as [i|e]; cbn [bind]; [|reflexivity].
  destruct (normalize_index (-1) (ncols pw)) as [j|e]; cbn [bind]; [|reflexivity].
  apply est_perm.
  - rewrite !length_rev, !length_map; reflexivity.
  - rewrite !length_map; reflexivity.
  - rewrite <- !map_rev, !combine_map_same, map_rev.
    symmetry; apply Permutation_rev.
Qed.

End Directions.

(** C9: for an estimator that is invariant under a common permutation of
    its two sample sequences, whenever both directions return their curves
    over the script's cumulative sizes, the two curves end in the same
    value: at the full matrix both directions measure the same rows, in
    opposite order. *)
Theorem final_size_same_both_directions
    (E : Type) (entropy_conditional : list Z -> list Z -> result E)
    (w2id : list (string * Z)) (probes : list string)
    (windows : ndarray) (y1 y2 : list E) :
  PermInvariant entropy_conditional ->
  let sizes := num_windows_list_of (nrows windows) in
  collect_data entropy_conditional w2id probes sizes windows false = Ok y1 ->
  collect_data entropy_conditional w2id probes sizes windows true = Ok y2 ->
  exists v, final y1 = Some v /\ final y2 = Some v.
Proof.
  intros Hperm sizes; subst sizes.
  rewrite num_windows_list_closed_form, !collect_data_mapM.
  pose proof (cei_of_full_flip0 w2id probes Hperm windows) as Hfull.
  cbn [mapM].
  repeat match goal with
  | |- context [bind (cei_of ?e ?d ?p ?w ?k) _] =>
      destruct (cei_of e d p w k); cbn [bind]; try discriminate
  end.
  injection Hfull as ->.
  intros [= <-] [= <-]; eexists; split; reflexivity.
Qed.

(** *** The reference estimator reads a multiset *)

Lemma sumR_Permutation (l l' : list R) :
  Permutation l l' -> Plugin.sumR l = Plugin.sumR l'.
Proof.
  induction 1 as [|a l l' _ IH|a b l|l l' l'' _ IH1 _ IH2]; simpl.
  - reflexivity.
  - rewrite IH; reflexivity.
  - lra.
  - rewrite IH1; exact IH2.
Qed.

Lemma term_Permutation (ps ps' : list (Z * Z)) (p : Z * Z) :
  Permutation ps ps' -> Plugin.term ps p = Plugin.term ps' p.
Proof.
  intros H; unfold Plugin.term.
  rewrite (proj1 (Permutation_count_occ Plugin.pair_eq_dec ps ps') H p).
  rewrite (proj1 (Permutation_count_occ Z.eq_dec (map snd ps) (map snd ps'))
                 (Permutation_map snd H) (snd p)).
  rewrite (Permutation_length H); reflexivity.
Qed.

Lemma plugin_PermInvariant : PermInvariant Plugin.entropy_conditional.
Proof.
  intros x y x' y' Hxy Hxy' H; unfold Plugin.entropy_conditional.
  rewrite Hxy, Hxy', !Nat.eqb_refl; cbv zeta; f_equal.
  rewrite (sumR_Permutation (Permutation_map (Plugin.term (combine x y)) H)).
  f_equal; apply map_ext; intros p; apply term_Permutation, H.
Qed.

Lemma final_size_same_both_directions_witness :
  exists y1 y2 v,
    collect_data Plugin.entropy_conditional AnalysisDemo.w2id AnalysisDemo.probes
      (num_windows_list_of 4) AnalysisDemo.four_windows false = Ok y1 /\
    collect_data Plugin.entropy_conditional AnalysisDemo.w2id AnalysisDemo.probes
      (num_windows_list_of 4) AnalysisDemo.four_windows true = Ok y2 /\
    final y1 = Some v /\ final y2 = Some v.
Proof.
  destruct (collect_data Plugin.entropy_conditional AnalysisDemo.w2id
              AnalysisDemo.probes (num_windows_list_of 4)
              AnalysisDemo.four_windows false) as [y1|e] eqn:H1;
    [|cbv - [Plugin.sumR Plugin.term] in H1; discriminate H1].
  destruct (collect_data Plugin.entropy_conditional AnalysisDemo.w2id
              AnalysisDemo.probes (num_windows_list_of 4)
              AnalysisDemo.four_windows true) as [y2|e] eqn:H2;
    [|cbv - [Plugin.sumR Plugin.term] in H2; discriminate H2].
  destruct (@final_size_same_both_directions _ Plugin.entropy_conditional
              AnalysisDemo.w2id AnalysisDemo.probes AnalysisDemo.four_windows
              y1 y2 plugin_PermInvariant H1 H2) as [v Hv].
  exists y1, y2, v; split; [reflexivity|]; split; [reflexivity|exact Hv].
Defined.

End AnalysisFacts.

(** ** The training driver *)

Module JobFacts.
Import Job JobSpec.

Section DriverFacts.

Variables float batch RNN : Type.
Variable env : Env float batch RNN.

Implicit Types (opt : Optimizer) (prep : Prep batch) (s : locals float)
               (w : world float batch RNN).

(** *** The schedule *)

Lemma scheduled_dueb (tick : nat) (b : bool) :
  scheduled env tick = Ok b -> b = dueb env tick.
Proof.
  unfold scheduled, dueb.
  destruct (Z.of_nat tick <? num_start_ticks env); [intros [= <-]; reflexivity|].
  destruct (tick_step env =? 0); [discriminate|].
  intros [= <-]; reflexivity.
Qed.

Lemma scheduled_total (tick : nat) :
  tick_step env <> 0 -> scheduled env tick = Ok (dueb env tick).
Proof.
  intros Hstep; unfold scheduled, dueb.
  destruct (Z.of_nat tick <? num_start_ticks env); [reflexivity|].
  destruct (Z.eqb_spec (tick_step env) 0); [contradiction|reflexivity].
Qed.

Lemma scheduled_raises (tick : nat) (e : exn) :
  scheduled env tick = Raise e -> e = ZeroDivisionError /\ tick_step env = 0.
Proof.
  unfold scheduled.
  destruct (Z.of_nat tick <? num_start_ticks env); [discriminate|].
  destruct (Z.eqb_spec (tick_step env) 0); [|discriminate].
  intros [= <-]; split; [reflexivity|assumption].
Qed.

Lemma dueb_due (tick : nat) :
  tick_step env <> 0 -> (dueb env tick = true <-> due env tick).
Proof.
  intros Hstep; unfold dueb, due.
  rewrite orb_true_iff, Z.ltb_lt, Z.eqb_eq, (Z.mod_divide _ _ Hstep).
  reflexivity.
Qed.

(** *** The console *)

Lemma completed_ticks_app (o1 o2 : list (event float)) :
  completed_ticks (o1 ++ o2) = completed_ticks o1 ++ completed_ticks o2.
Proof. apply flat_map_app. Qed.

Lemma completed_ticks_metrics (perf : Performance float) :
  completed_ticks
    (flat_map (fun kv => match rev (snd kv) with
                         | [] => []
                         | v :: _ => [Metric (fst kv) v]
                         end) perf) = [].
Proof.
  induction perf as [|[k vs] perf IH]; simpl; [reflexivity|].
  rewrite completed_ticks_app, IH, app_nil_r.
  destruct (rev vs); reflexivity.
Qed.

(** *** One iteration *)

(** What the four updates make of a performance record. *)
Let evaluated (perf : Performance float) (m : RNN) prep : Performance float :=
  update_ba_performance env
    (update_pp_performance env
       (update_dp_performance env
          (update_cs_performance env perf m prep) m prep) m prep) m prep.

Lemma tick_body_run opt prep (tick : nat) (eval_mb : Z) s w (b : bool) :
  scheduled env tick = Ok b ->
  exists s' w',
    tick_body env opt prep (tick, eval_mb) s w = (Ok s', w') /\
    windows_generator w' =
      (if Nat.eqb tick 0 then windows_generator w
       else skipn (num_mbs_per_eval prep) (windows_generator w)) /\
    model w' =
      (if Nat.eqb tick 0 then model w
       else fold_left (train_step env opt)
              (firstn (num_mbs_per_eval prep) (windows_generator w)) (model w)) /\
    completed_ticks (stdout w') = completed_ticks (stdout w) ++ [tick] /\
    train_mb s' =
      (if Nat.eqb tick 0 then train_mb s
       else train_mb s + Z.of_nat (num_mbs_per_eval prep)) /\
    performance_mbs s' =
      (if b then performance_mbs s ++ [eval_mb] else performance_mbs s) /\
    performance s' =
      (if b then evaluated (performance s) (model w') prep else performance s).
Proof.
  intros Hb; unfold tick_body, train_phase, eval_phase, train_on_corpus,
    print_latest, print, pbind, lift, ret, evaluated.
  destruct (Nat.eqb tick 0); rewrite Hb; destruct b; cbn -[completed_ticks];
    eexists; eexists; (split; [reflexivity|]); cbn -[completed_ticks];
    rewrite ?completed_ticks_app, ?completed_ticks_metrics, ?app_nil_r;
    repeat split; reflexivity.
Qed.

Lemma tick_body_stuck opt prep (tick : nat) (eval_mb : Z) s w (e : exn) :
  scheduled env tick = Raise e ->
  exists w', tick_body env opt prep (tick, eval_mb) s w = (Raise e, w').
Proof.
  intros Hs; unfold tick_body, train_phase, eval_phase, train_on_corpus,
    print, pbind, lift, ret.
  destruct (Nat.eqb tick 0); rewrite Hs; cbn; eexists; reflexivity.
Qed.

(** *** The loop *)

Lemma for_each_app (A St : Type) (body : A -> St -> prog float batch RNN St)
    (l1 l2 : list A) (st : St) w :
  for_each body (l1 ++ l2) st w = pbind (for_each body l1 st) (for_each body l2) w.
Proof.
  revert st w; induction l1 as [|a l1 IH]; intros st w; simpl.
  - reflexivity.
  - unfold pbind.
    destruct (body a st w) as [[st'|e] w']; [|reflexivity].
    rewrite IH; reflexivity.
Qed.

(** The ticks of a range on which the model is trained: all but tick 0. *)
Let trained (i len : nat) : nat :=
  length (filter (fun t => negb (Nat.eqb t 0)) (seq i len)).

Lemma trained_from_0 (len : nat) : trained 0 (S len) = len.
Proof.
  unfold trained; cbn [seq filter Nat.eqb negb].
  rewrite forallb_filter_id; [apply length_seq|].
  apply forallb_forall; intros t Ht; apply in_seq in Ht.
  destruct t; [lia|reflexivity].
Qed.

Lemma loop_run opt prep (l : list Z) (i : nat) s w
    (r : result (locals float)) w' :
  for_each (tick_body env opt prep) (combine (seq i (length l)) l) s w = (r, w') ->
  match r with
  | Ok s' =>
      completed_ticks (stdout w') = completed_ticks (stdout w) ++ seq i (length l) /\
      windows_generator w' =
        skipn (trained i (length l) * num_mbs_per_eval prep) (windows_generator w) /\
      performance_mbs s' =
        performance_mbs s ++
        map snd (filter (fun te => dueb env (fst te)) (combine (seq i (length l)) l)) /\
      train_mb s' =
        train_mb s + Z.of_nat (trained i (length l) * num_mbs_per_eval prep)
  | Raise e => e = ZeroDivisionError /\ tick_step env = 0
  end.
Proof.
  revert i s w; induction l as [|x l IH]; intros i s w.
  - cbn; intros [= <- <-]; rewrite !app_nil_r.
    repeat split; lia.
  - cbn [length seq combine for_each]; unfold pbind at 1.
    destruct (scheduled env i) as [b|e] eqn:Hs.
    + destruct (@tick_body_run opt prep i x s w b Hs)
        as [s1 [w1 [Hrun [Hgen [_ [Hout [Hmb [Hmbs _]]]]]]]].
      rewrite Hrun; intros Hrest; apply IH in Hrest.
      destruct r as [s'|e]; [|exact Hrest].
      destruct Hrest as [Hout' [Hgen' [Hmbs' Hmb']]].
      rewrite Hout', Hout, Hgen', Hgen, Hmbs', Hmbs, Hmb', Hmb.
      pose proof (@scheduled_dueb i b Hs) as Hb; subst b.
      unfold trained; cbn [seq filter fst map].
      split; [rewrite <- app_assoc; reflexivity|].
      split; [|split].
      * destruct (Nat.eqb i 0); cbn [negb length]; [reflexivity|].
        rewrite skipn_skipn; f_equal; lia.
      * destruct (dueb env i); cbn [map snd]; [|reflexivity].
        rewrite <- app_assoc; reflexivity.
      * destruct (Nat.eqb i 0); cbn [negb length]; lia.
    + destruct (@tick_body_stuck opt prep i x s w e Hs) as [w1 Hrun].
      rewrite Hrun; intros [= <- _].
      exact (@scheduled_raises i e Hs).
Qed.

Lemma loop_total opt prep (l : list (nat * Z)) s w :
  tick_step env <> 0 ->
  exists s' w', for_each (tick_body env opt prep) l s w = (Ok s', w').
Proof.
  intros Hstep; revert s w; induction l as [|[tick x] l IH]; intros s w.
  - eexists; eexists; reflexivity.
  - cbn [for_each]; unfold pbind.
    destruct (@tick_body_run opt prep tick x s w _ (scheduled_total tick Hstep))
      as [s1 [w1 [Hrun _]]].
    rewrite Hrun; apply IH.
Qed.

Lemma firstn_combine_seq (A : Type) (k i : nat) (l : list A) :
  firstn k (combine (seq i (length l)) l)
  = combine (seq i (length (firstn k l))) (firstn k l).
Proof.
  revert k i; induction l as [|a l IH]; intros [|k] i; cbn; try reflexivity.
  rewrite IH; reflexivity.
Qed.

Lemma firstn_enumerate (A : Type) (k : nat) (l : list A) :
  firstn k (enumerate l) = enumerate (firstn k l).
Proof. apply firstn_combine_seq. Qed.

Lemma nth_error_combine_seq (A : Type) (l : list A) (i t : nat) (x : A) :
  nth_error l t = Some x ->
  nth_error (combine (seq i (length l)) l) t = Some ((i + t)%nat, x).
Proof.
  revert i t; induction l as [|a l IH]; intros i [|t]; cbn; try discriminate.
  - intros [= ->]; rewrite Nat.add_0_r; reflexivity.
  - intros H; rewrite (IH (S i) t H); do 2 f_equal; lia.
Qed.

Lemma firstn_snoc (A : Type) (l : list A) (t : nat) (x : A) :
  nth_error l t = Some x -> firstn (S t) l = firstn t l ++ [x].
Proof.
  revert t; induction l as [|a l IH]; intros [|t] H; try discriminate H.
  - injection H as ->; reflexivity.
  - change (a :: firstn (S t) l = a :: (firstn t l ++ [x])).
    f_equal; apply IH; exact H.
Qed.


(** The iteration of tick [t] starts where the first [t] ticks ended. *)
Lemma run_ticks_step opt (params : Params float) (t : nat) (eval_mb : Z) s w :
  let prep := make_train_prep env params (num_total_ticks env) in
  nth_error (eval_mbs prep) t = Some eval_mb ->
  run_ticks env opt params t = (Ok s, w) ->
  run_ticks env opt params (S t) = tick_body env opt prep (t, eval_mb) s w.
Proof.
  intros prep Hnth Hrun; unfold run_ticks in *; fold prep in Hrun |- *.
  rewrite (@firstn_snoc _ (enumerate (eval_mbs prep)) t (t, eval_mb))
    by (apply (@nth_error_combine_seq _ (eval_mbs prep) 0 t eval_mb Hnth)).
  rewrite for_each_app; unfold pbind at 1; rewrite Hrun.
  cbn [for_each]; unfold pbind, ret.
  destruct (tick_body env opt prep (t, eval_mb) s w) as [[s'|e] w']; reflexivity.
Qed.

(** *** The series *)


Lemma collect_series_raises (items : Performance float) (mbs : list Z)
    (acc : list (Series float)) (e : exn) :
  collect_series items mbs acc = Raise e -> e = ValueError.
Proof.
  revert acc; induction items as [|[k v] items IH]; intros acc; cbn [collect_series].
  - discriminate.
  - destruct v as [|x v]; [apply IH|].
    unfold make_series.
    destruct (Nat.eqb (length (x :: v)) (length mbs)); cbn [bind].
    + apply IH.
    + intros [= <-]; reflexivity.
Qed.

(** *** The markers *)



(** *** [main] *)

(** Whatever the loop and the collection of the series raise, it is not
    the error of the optimizer choice. *)
Lemma main_after_setup opt (params : Params float) :
  select_optimizer params = Ok opt ->
  let prep := make_train_prep env params (num_total_ticks env) in
  main env params =
  pbind (for_each (tick_body env opt prep) (enumerate (eval_mbs prep))
                  (initial_locals float))
        (fun s => lift (collect_series (performance s) (performance_mbs s) []))
        (initial_world env params).
Proof. intros Hopt prep; unfold main, pbind at 1, lift at 1; rewrite Hopt; reflexivity. Qed.


(** C6: with an optimizer name other than "adagrad" and "sgd", [main]
    raises the error of line 123 with no batch drawn from the generator,
    no step taken by the model and nothing printed by the loop; with one
    of the two names the optimizer is chosen and [main] never ends in
    that error. *)
Theorem invalid_optimizer_raises_at_setup (params : Params float) :
  (optimizer params <> "adagrad"%string -> optimizer params <> "sgd"%string ->
   exists w,
     main env params = (Raise AttributeError, w) /\
     windows_generator w =
       generate_batches (make_train_prep env params (num_total_ticks env)) /\
     model w = new_model env params /\
     stdout w = []) /\
  (optimizer params = "adagrad"%string \/ optimizer params = "sgd"%string ->
   is_ok (select_optimizer params) = true /\
   fst (main env params) <> Raise AttributeError).
Proof.
  split.
  - intros Ha Hs; exists (initial_world env params).
    split; [|repeat split].
    unfold main, pbind, lift, select_optimizer.
    destruct (String.eqb_spec (optimizer params) "adagrad"); [contradiction|].
    destruct (String.eqb_spec (optimizer params) "sgd"); [contradiction|].
    reflexivity.
  - intros Hopt.
    assert (Hsel : exists opt, select_optimizer params = Ok opt).
    { unfold select_optimizer; destruct Hopt as [-> | ->]; cbn; eauto. }
    destruct Hsel as [opt Hsel]; rewrite Hsel; split; [reflexivity|].
    rewrite (main_after_setup params Hsel); unfold pbind, lift.
    destruct (for_each _ _ _ _) as [[s|e] w] eqn:Hloop; cbn [fst].
    + destruct (collect_series _ _ _) as [res|e] eqn:Hres; [discriminate|].
      apply collect_series_raises in Hres; subst e; discriminate.
    + apply loop_run in Hloop; destruct Hloop as [-> _]; discriminate.
Qed.


Lemma run_ticks_tick opt (params : Params float) (t : nat) :
  tick_step env <> 0 ->
  let prep := make_train_prep env params (num_total_ticks env) in
  (t < length (eval_mbs prep))%nat ->
  exists s w s' w',
    run_ticks env opt params t = (Ok s, w) /\
    run_ticks env opt params (S t) = (Ok s', w') /\
    windows_generator w' =
      (if Nat.eqb t 0 then windows_generator w
       else skipn (num_mbs_per_eval prep) (windows_generator w)) /\
    model w' =
      (if Nat.eqb t 0 then model w
       else fold_left (train_step env opt)
              (firstn (num_mbs_per_eval prep) (windows_generator w)) (model w)).
Proof.
  intros Hstep prep Ht.
  destruct (@loop_total opt prep (firstn t (enumerate (eval_mbs prep)))
              (initial_locals float) (initial_world env params) Hstep)
    as [s [w Hrun]].
  destruct (nth_error (eval_mbs prep) t) as [x|] eqn:Hnth;
    [|apply nth_error_None in Hnth; lia].
  destruct (@tick_body_run opt prep t x s w _ (scheduled_total t Hstep))
    as [s' [w' [Hbody [Hg [Hm _]]]]].
  exists s, w, s', w'; split; [exact Hrun|].
  split; [|split; assumption].
  rewrite (@run_ticks_step opt params t x s w Hnth Hrun); exact Hbody.
Qed.




End DriverFacts.

(** *** The four updates *)

Section UpdatesFacts.

Variables float batch RNN : Type.
Variable sc : Evaluation.Scores float batch RNN.

Lemma series_of_append_score (k k' : string) (v : float)
    (perf : Performance float) :
  Evaluation.series_of k' (Evaluation.append_score k v perf) =
  Evaluation.series_of k' perf ++ (if String.eqb k k' then [v] else []).
Proof.
  induction perf as [|[k0 vs] perf IH]; cbn [Evaluation.append_score Evaluation.series_of].
  - destruct (String.eqb k k'); reflexivity.
  - destruct (String.eqb_spec k0 k) as [->|Hk0]; cbn [Evaluation.series_of].
    + destruct (String.eqb k k'); [reflexivity|rewrite app_nil_r; reflexivity].
    + destruct (String.eqb_spec k0 k') as [->|Hk0']; [|exact IH].
      destruct (String.eqb_spec k k') as [->|_]; [contradiction|].
      rewrite app_nil_r; reflexivity.
Qed.

(** One evaluation, as the four updates of [Evaluation] perform it. *)
Lemma evaluation_appends_one (perf : Performance float) (m : RNN)
    (prep : Prep batch) :
  let perf' :=
    Evaluation.update_ba_performance sc
      (Evaluation.update_pp_performance sc
         (Evaluation.update_dp_performance sc
            (Evaluation.update_cs_performance sc perf m prep) m prep) m prep) m prep in
  (forall k, In k Evaluation.metric_names ->
     length (Evaluation.series_of k perf') = S (length (Evaluation.series_of k perf))) /\
  (forall k, ~ In k Evaluation.metric_names ->
     Evaluation.series_of k perf' = Evaluation.series_of k perf).
Proof.
  intros perf'; subst perf'.
  unfold Evaluation.update_ba_performance, Evaluation.update_pp_performance,
    Evaluation.update_dp_performance, Evaluation.update_cs_performance.
  split; intros k Hk; rewrite !series_of_append_score.
  - cbn [Evaluation.metric_names In] in Hk.
    repeat (destruct Hk as [<-|Hk]; [cbn; rewrite !length_app; cbn; lia|]).
    destruct Hk.
  - cbn [Evaluation.metric_names In] in Hk.
    repeat match goal with
    | |- context [String.eqb ?a k] =>
        destruct (String.eqb_spec a k); [exfalso; apply Hk; subst k; cbn; tauto|]
    end.
    rewrite !app_nil_r; reflexivity.
Qed.

End UpdatesFacts.

(** C3: with a non-zero [tick_step], at every tick the iteration ends
    normally, and the marker of the tick is appended to [performance_mbs]
    and the four updates are applied to [performance], in the order of
    lines 144-147 and on the model as trained so far, if the tick is among
    the first [num_start_ticks] or a multiple of [tick_step]; at every other
    tick [performance_mbs] and [performance] are left as they are.  With
    the updates of [Evaluation], a due tick adds exactly one entry to each
    of the five series and no other tick adds any. *)
Theorem probes_evaluated_on_schedule
    (float batch RNN : Type) (env : Env float batch RNN)
    (opt : Optimizer) (prep : Prep batch) (tick : nat) (eval_mb : Z)
    (s : locals float) (w : world float batch RNN) :
  tick_step env <> 0 ->
  (exists s' w',
     tick_body env opt prep (tick, eval_mb) s w = (Ok s', w') /\
     (due env tick ->
        performance_mbs s' = performance_mbs s ++ [eval_mb] /\
        performance s' =
          update_ba_performance env
            (update_pp_performance env
               (update_dp_performance env
                  (update_cs_performance env (performance s) (model w') prep)
                  (model w') prep) (model w') prep) (model w') prep) /\
     (~ due env tick ->
        performance_mbs s' = performance_mbs s /\ performance s' = performance s)) /\
  (forall sc : Evaluation.Scores float batch RNN,
   exists s' w',
     tick_body (Evaluation.with_evaluation sc env) opt prep (tick, eval_mb) s w
       = (Ok s', w') /\
     (due env tick ->
        performance_mbs s' = performance_mbs s ++ [eval_mb] /\
        (forall k, In k Evaluation.metric_names ->
           length (Evaluation.series_of k (performance s'))
             = S (length (Evaluation.series_of k (performance s)))) /\
        (forall k, ~ In k Evaluation.metric_names ->
           Evaluation.series_of k (performance s')
             = Evaluation.series_of k (performance s))) /\
     (~ due env tick ->
        performance_mbs s' = performance_mbs s /\ performance s' = performance s)).
Proof.
  intros Hstep.
  assert (Hgen : forall env' : Env float batch RNN,
    tick_step env' <> 0 ->
    exists s' w',
      tick_body env' opt prep (tick, eval_mb) s w = (Ok s', w') /\
      (due env' tick ->
        performance_mbs s' = performance_mbs s ++ [eval_mb] /\
        performance s' =
          update_ba_performance env'
            (update_pp_performance env'
               (update_dp_performance env'
                  (update_cs_performance env' (performance s) (model w') prep)
                  (model w') prep) (model w') prep) (model w') prep) /\
      (~ due env' tick ->
        performance_mbs s' = performance_mbs s /\ performance s' = performance s)).
  { intros env' Hstep'.
    destruct (@tick_body_run _ _ _ env' opt prep tick eval_mb s w _
                (@scheduled_total _ _ _ env' tick Hstep'))
      as [s' [w' [Hrun [_ [_ [_ [_ [Hmbs Hperf]]]]]]]].
    exists s', w'; split; [exact Hrun|].
    pose proof (@dueb_due _ _ _ env' tick Hstep') as Hdue.
    destruct (dueb env' tick).
    - split; [intros _; split; assumption|].
      intros Hn; exfalso; apply Hn, Hdue; reflexivity.
    - split; [|intros _; split; assumption].
      intros Hd; apply Hdue in Hd; discriminate. }
  split; [apply Hgen, Hstep|].
  intros sc.
  destruct (Hgen (Evaluation.with_evaluation sc env) Hstep)
    as [s' [w' [Hrun [Hdue Hnot]]]].
  exists s', w'; split; [exact Hrun|].
  split; [|exact Hnot].
  intros Hd; destruct (Hdue Hd) as [Hmbs Hperf].
  split; [exact Hmbs|].
  rewrite Hperf; apply (evaluation_appends_one sc).
Qed.

(** *** The small run *)

Lemma invalid_optimizer_raises_at_setup_witness :
  (exists w,
     main Demo.env (Demo.params "adam") = (Raise AttributeError, w) /\
     windows_generator w = generate_batches (Demo.prep_for 4) /\
     model w = [] /\ stdout w = []) /\
  fst (main Demo.env (Demo.params "sgd")) <> Raise AttributeError.
Proof.
  split.
  - apply (proj1 (invalid_optimizer_raises_at_setup Demo.env (Demo.params "adam")));
      cbn; discriminate.
  - apply (proj2 (invalid_optimizer_raises_at_setup Demo.env (Demo.params "sgd"))).
    right; reflexivity.
Defined.







Lemma probes_evaluated_on_schedule_witness :
  exists s' w',
    tick_body Demo.env SGD (Demo.prep_for 4) (3%nat, 9) (initial_locals Z)
              (initial_world Demo.env (Demo.params "sgd")) = (Ok s', w') /\
    performance_mbs s' = [] /\
    performance s' = [("train_pp"%string, []); ("test_pp"%string, [])].
Proof.
  destruct (proj1 (@probes_evaluated_on_schedule _ _ _ Demo.env SGD (Demo.prep_for 4)
                     3%nat 9 (initial_locals Z)
                     (initial_world Demo.env (Demo.params "sgd"))
                     ltac:(cbn; lia)))
    as [s' [w' [Hrun [_ Hnot]]]].
  exists s', w'; split; [exact Hrun|].
  apply Hnot; unfold due; cbn.
  intros [H|[q Hq]]; lia.
Defined.

End JobFacts.

(** ** More on the entropy analysis *)

Module AnalysisMore.
Import Np NpFacts Analysis AnalysisSpec AnalysisFacts.

Lemma getitem_missing (d : list (string * Z)) (k : string) :
  ~ In k (map fst d) -> getitem d k = Raise KeyError.
Proof.
  induction d as [|[k' v] d IH]; cbn [getitem map fst In]; intros H; [reflexivity|].
  destruct (String.eqb_spec k' k) as [->|_]; [exfalso; apply H; left; reflexivity|].
  apply IH; intros Hin; apply H; right; exact Hin.
Qed.

Lemma getitem_raises (d : list (string * Z)) (k : string) (e : exn) :
  getitem d k = Raise e -> e = KeyError.
Proof.
  induction d as [|[k' v] d IH]; cbn [getitem]; [intros [= <-]; reflexivity|].
  destruct (String.eqb k' k); [discriminate|exact IH].
Qed.

Lemma mapM_getitem_missing (d : list (string * Z)) (ks : list string) (k : string) :
  In k ks -> ~ In k (map fst d) -> mapM (getitem d) ks = Raise KeyError.
Proof.
  induction ks as [|k0 ks IH]; intros Hin Hk; [destruct Hin|].
  cbn [mapM]; destruct (getitem d k0) as [v|e] eqn:Hg; cbn [bind].
  - destruct Hin as [->|Hin];
      [rewrite (getitem_missing d k Hk) in Hg; discriminate|].
    rewrite (IH Hin Hk); reflexivity.
  - rewrite (getitem_raises d k0 Hg); reflexivity.
Qed.

Section Errors.

Variable E : Type.
Variable entropy_conditional : list Z -> list Z -> result E.
Variable w2id : list (string * Z).
Variable probes : list string.

(** X1: a matrix with fewer than two columns has no second-to-last column:
    as soon as there is one cumulative size, [collect_data] ends in an
    [IndexError], in either direction, whatever the rows, the probes and
    the estimator. *)
Theorem collect_data_narrow_matrix (num_windows_list : list Z)
    (windows : ndarray) (reverse : bool) :
  (ncols windows < 2)%nat -> num_windows_list <> [] ->
  collect_data entropy_conditional w2id probes num_windows_list windows reverse
  = Raise IndexError.
Proof.
  intros Hw Hne; rewrite collect_data_mapM.
  destruct num_windows_list as [|k sizes]; [contradiction|].
  cbn [mapM]; unfold cei_of, probe_windows_of, column.
  assert (Hidx : forall m : ndarray, (ncols m < 2)%nat ->
            normalize_index (-2) (ncols m) = Raise IndexError).
  { intros m Hm; unfold normalize_index; cbn [Z.ltb Z.compare].
    destruct (Z.ltb_spec (-2 + Z.of_nat (ncols m)) 0); [reflexivity|lia]. }
  rewrite Hidx by (destruct reverse; exact Hw).
  reflexivity.
Qed.

(** X2: on a matrix with at least two columns, a probe word that is not a
    key of [w2id] makes [collect_data] end in a [KeyError] at the first
    cumulative size, before the estimator is called. *)
Theorem collect_data_unknown_probe (num_windows_list : list Z)
    (windows : ndarray) (reverse : bool) (p : string) :
  (2 <= ncols windows)%nat -> num_windows_list <> [] ->
  In p probes -> ~ In p (map fst w2id) ->
  collect_data entropy_conditional w2id probes num_windows_list windows reverse
  = Raise KeyError.
Proof.
  intros Hw Hne Hp Hmiss; rewrite collect_data_mapM.
  destruct num_windows_list as [|k sizes]; [contradiction|].
  cbn [mapM]; unfold cei_of, probe_windows_of, column.
  change (-2) with (- Z.of_nat 2).
  rewrite normalize_index_from_end
    by (cbn [ncols slice_to]; destruct reverse; cbn [ncols flip0]; lia).
  cbn [bind]; rewrite (mapM_getitem_missing w2id probes p Hp Hmiss).
  reflexivity.
Qed.

End Errors.

Lemma collect_data_narrow_matrix_witness :
  collect_data Plugin.entropy_conditional AnalysisDemo.w2id AnalysisDemo.probes
               [0; 2] (mk_ndarray 1 [[3]; [5]]) false
  = Raise IndexError.
Proof.
  apply collect_data_narrow_matrix; [cbn; lia|discriminate].
Defined.

Lemma collect_data_unknown_probe_witness :
  collect_data Plugin.entropy_conditional AnalysisDemo.w2id
               ["cat"%string; "bird"%string]
               [1; 3] AnalysisDemo.three_windows true
  = Raise KeyError.
Proof.
  apply (@collect_data_unknown_probe _ Plugin.entropy_conditional
           AnalysisDemo.w2id ["cat"%string; "bird"%string] [1; 3]
           AnalysisDemo.three_windows true "bird"%string).
  - cbn; lia.
  - discriminate.
  - right; left; reflexivity.
  - cbn; intros [H|[H|[]]]; discriminate H.
Defined.

(** *** The columns of the window matrix *)

Lemma window_at_length (token_ids : list Z) (w i : nat) :
  (i + w <= length token_ids)%nat -> length (window_at token_ids w i) = w.
Proof.
  intros H; unfold window_at; rewrite length_firstn, length_skipn; lia.
Qed.

Lemma shifted_stream (token_ids : list Z) (w c n : nat) :
  (1 <= c <= w)%nat -> (n + w <= length token_ids)%nat ->
  map (fun r => nth (length r - c) r 0) (map (window_at token_ids w) (seq 0 n))
  = firstn n (skipn (w - c) token_ids).
Proof.
  intros Hc Hn.
  rewrite <- read_prefix by (rewrite length_skipn; lia).
  rewrite map_map; apply map_ext_in; intros i Hi; apply in_seq in Hi.
  rewrite window_at_length by lia.
  unfold window_at; rewrite nth_firstn.
  destruct (Nat.ltb_spec (w - c) w) as [_|]; [|lia].
  rewrite !nth_skipn; f_equal; lia.
Qed.

(** X3: the second-to-last and the last column of the window matrix are
    the token stream itself, read from the tokens [w - 2] and [w - 1] on
    ([w] the window length): the [i]-th probe candidate is token
    [i + w - 2] and its next word is the token right after it. *)
Theorem windows_columns_are_adjacent_tokens (token_ids : list Z) (context_size : Z) :
  1 <= context_size ->
  context_size + 1 <= Z.of_nat (length token_ids) ->
  let w := Z.to_nat (context_size + 1) in
  let n := (length token_ids - w)%nat in
  exists ws,
    windows token_ids context_size = Ok ws /\
    column (-2) ws = Ok (firstn n (skipn (w - 2) token_ids)) /\
    column (-1) ws = Ok (firstn n (skipn (w - 1) token_ids)) /\
    forall i, (i < n)%nat ->
      nth_error (firstn n (skipn (w - 2) token_ids)) i
        = nth_error token_ids (i + w - 2) /\
      nth_error (firstn n (skipn (w - 1) token_ids)) i
        = nth_error token_ids (i + w - 2 + 1).
Proof.
  intros Hc Hlen w n.
  assert (Hwn : (n + w = length token_ids)%nat /\ (2 <= w)%nat)
    by (subst n w; lia).
  eexists; split; [apply windows_rows; lia|]; fold w n.
  assert (Hwf : wf {| ncols := w;
                      rows := map (window_at token_ids w) (seq 0 n) |}).
  { apply Forall_forall; intros r Hr; cbn [rows] in Hr.
    apply in_map_iff in Hr; destruct Hr as [i [<- Hi]]; apply in_seq in Hi.
    cbn [ncols]; apply window_at_length; lia. }
  split; [|split].
  - change (-2) with (- Z.of_nat 2).
    rewrite (column_from_end (c := 2) Hwf) by (cbn [ncols]; lia).
    cbn [rows]; rewrite shifted_stream by lia; reflexivity.
  - change (-1) with (- Z.of_nat 1).
    rewrite (column_from_end (c := 1) Hwf) by (cbn [ncols]; lia).
    cbn [rows]; rewrite shifted_stream by lia; reflexivity.
  - intros i Hi; rewrite !nth_error_firstn.
    destruct (Nat.ltb_spec i n) as [_|]; [|lia].
    rewrite !nth_error_skipn; split; f_equal; lia.
Qed.

Lemma windows_columns_are_adjacent_tokens_witness :
  exists ws,
    windows [10; 11; 12; 13; 14; 15] 2 = Ok ws /\
    column (-2) ws = Ok [11; 12; 13] /\
    column (-1) ws = Ok [12; 13; 14].
Proof.
  destruct (@windows_columns_are_adjacent_tokens [10; 11; 12; 13; 14; 15] 2)
    as [ws [H1 [H2 [H3 _]]]]; [lia | cbn; lia |].
  exists ws; split; [exact H1|]; split; [exact H2 | exact H3].
Defined.

(** *** Cumulative sizes *)

(** X4: the sizes of the script are non-decreasing and lie between 0 and
    the number of windows, so every slice is a prefix of the matrix; the
    first size is 0, an empty prefix, exactly when there are fewer than
    four windows. *)
Theorem sizes_sorted_in_range (n : nat) :
  let l := num_windows_list_of n in
  Forall (fun k => 0 <= k <= Z.of_nat n) l /\
  StronglySorted Z.le l /\
  (nth 0 l 0 = 0 <-> (n < 4)%nat).
Proof.
  intros l; subst l; rewrite num_windows_list_closed_form.
  set (m := Z.of_nat n).
  assert (Hm : 0 <= m) by (subst m; lia).
  assert (H1 : 0 <= 1 * m / 4 <= m)
    by (split; [apply Z.div_pos; lia|apply Z.div_le_upper_bound; lia]).
  assert (H12 : 1 * m / 4 <= 2 * m / 4) by (apply Z.div_le_mono; lia).
  assert (H23 : 2 * m / 4 <= 3 * m / 4) by (apply Z.div_le_mono; lia).
  assert (H3 : 3 * m / 4 <= m) by (apply Z.div_le_upper_bound; lia).
  split; [repeat constructor; lia|].
  split; [repeat constructor; lia|].
  cbn [nth]; split; intros H.
  - assert (m < 4); [|lia].
    destruct (Z.lt_ge_cases m 4) as [|Hge]; [assumption|].
    assert (1 <= 1 * m / 4) by (apply Z.div_le_lower_bound; lia); lia.
  - apply Z.div_small; lia.
Qed.

(** *** Prefixes *)

Section Prefixes.

Variable E : Type.
Variable entropy_conditional : list Z -> list Z -> result E.
Variable w2id : list (string * Z).
Variable probes : list string.

(** X5: the measurements are cumulative: for sizes [0 <= k1 <= k2] the
    probe windows kept at [k1] are an initial segment of those kept at
    [k2], in the same order. *)
Theorem probe_windows_cumulative (ws : ndarray) (ids : list Z) (k1 k2 : Z) :
  wf ws -> (2 <= ncols ws)%nat ->
  mapM (getitem w2id) probes = Ok ids ->
  0 <= k1 <= k2 ->
  exists pw1 pw2 later,
    probe_windows_of w2id probes (slice_to k1 ws) = Ok pw1 /\
    probe_windows_of w2id probes (slice_to k2 ws) = Ok pw2 /\
    rows pw2 = rows pw1 ++ later.
Proof.
  intros Hwf Hw Hids Hk.
  do 2 eexists.
  exists (filter (fun r => existsb (Z.eqb (second_to_last r)) ids)
                 (skipn (Z.to_nat k1) (firstn (Z.to_nat k2) (rows ws)))).
  split; [|split].
  - apply probe_windows_of_filter; [apply wf_slice_to, Hwf|exact Hw|exact Hids].
  - apply probe_windows_of_filter; [apply wf_slice_to, Hwf|exact Hw|exact Hids].
  - cbn [rows]; rewrite !slice_to_nonneg by lia.
    rewrite <- filter_app; f_equal.
    rewrite <- (firstn_skipn (Z.to_nat k1) (firstn (Z.to_nat k2) (rows ws))) at 1.
    rewrite firstn_firstn, Nat.min_l by lia; reflexivity.
Qed.

(** X6: when no row of the [k]-row prefix holds a probe id in its
    second-to-last column (in particular for [k = 0]), the value for that
    size is whatever the estimator makes of two empty sequences: nothing
    guards the call. *)
Theorem no_probe_row_empty_samples (ws : ndarray) (ids : list Z) (k : Z) :
  wf ws -> (2 <= ncols ws)%nat ->
  mapM (getitem w2id) probes = Ok ids ->
  0 <= k ->
  (forall r, In r (firstn (Z.to_nat k) (rows ws)) -> ~ In (second_to_last r) ids) ->
  cei_of entropy_conditional w2id probes ws k = entropy_conditional [] [].
Proof.
  intros Hwf Hw Hids Hk Hnone.
  rewrite (@cei_of_spec E entropy_conditional w2id probes ws ids k Hwf Hw Hids Hk).
  unfold cei_spec, probe_rows_spec; rewrite filter_none; [reflexivity|].
  intros r Hr; apply not_true_is_false; intros Hex.
  apply existsb_exists in Hex; destruct Hex as [z [Hz Heq]].
  apply Z.eqb_eq in Heq; subst z; exact (Hnone r Hr Hz).
Qed.

Lemma existsb_same_elements (f : Z -> bool) (a b : list Z) :
  (forall z, In z a <-> In z b) -> existsb f a = existsb f b.
Proof.
  intros H; apply eq_true_iff_eq; rewrite !existsb_exists.
  split; intros [z [Hz Hf]]; exists z; (split; [apply H, Hz|exact Hf]).
Qed.

(** X7: only the set of probe ids matters: two vocabularies and probe
    lists that resolve to id lists with the same elements, in any order
    and with any repetition, give the same result, values and errors
    alike. *)
Theorem collect_data_probe_ids_as_set (w2id' : list (string * Z))
    (probes' : list string) (ids ids' : list Z)
    (num_windows_list : list Z) (windows : ndarray) (reverse : bool) :
  mapM (getitem w2id) probes = Ok ids ->
  mapM (getitem w2id') probes' = Ok ids' ->
  (forall z, In z ids <-> In z ids') ->
  collect_data entropy_conditional w2id probes num_windows_list windows reverse
  = collect_data entropy_conditional w2id' probes' num_windows_list windows reverse.
Proof.
  intros Hids Hids' Hsame; rewrite !collect_data_mapM.
  apply mapM_ext_in; intros k _.
  unfold cei_of, probe_windows_of; rewrite Hids, Hids'.
  destruct (column (-2) _) as [col|e]; cbn [bind]; [|reflexivity].
  replace (isin col ids') with (isin col ids); [reflexivity|].
  unfold isin; apply map_ext; intros v; apply existsb_same_elements, Hsame.
Qed.

(** X8: the values do not depend on the estimator's choice of what to read:
    with non-negative sizes, a matrix of at least two columns and known
    probes, there is one list of sample pairs, one per size, such that
    every estimator is applied to exactly these pairs, in order; in each
    pair the two sequences have the same length, at most the size, and the
    first holds probe ids only. *)
Theorem estimator_samples (num_windows_list : list Z) (windows : ndarray)
    (reverse : bool) (ids : list Z) :
  wf windows -> (2 <= ncols windows)%nat ->
  mapM (getitem w2id) probes = Ok ids ->
  Forall (fun k => 0 <= k) num_windows_list ->
  exists samples : list (list Z * list Z),
    collect_data (fun x y => Ok (x, y)) w2id probes num_windows_list windows reverse
      = Ok samples /\
    collect_data entropy_conditional w2id probes num_windows_list windows reverse
      = mapM (fun xy => entropy_conditional (fst xy) (snd xy)) samples /\
    Forall2 (fun k xy =>
               length (fst xy) = length (snd xy) /\
               (length (fst xy) <= Z.to_nat k)%nat /\
               Forall (fun v => In v ids) (fst xy))
            num_windows_list samples.
Proof.
  intros Hwf Hw Hids Hpos.
  set (directed := if reverse then flip0 windows else windows).
  assert (Hwfd : wf directed)
    by (subst directed; destruct reverse; [apply wf_flip0|]; exact Hwf).
  assert (Hwd : (2 <= ncols directed)%nat)
    by (subst directed; destruct reverse; exact Hw).
  set (sample := fun k : Z =>
         let kept := probe_rows_spec ids (rows directed) (Z.to_nat k) in
         (map second_to_last kept, map last_column kept)).
  exists (map sample num_windows_list).
  split; [|split].
  - rewrite collect_data_mapM; fold directed.
    rewrite (@mapM_ext_in _ _ _ (fun k => Ok (sample k))).
    + clear; induction num_windows_list as [|k l IH]; cbn [mapM map bind];
        [reflexivity|rewrite IH; reflexivity].
    + intros k Hk.
      rewrite (@cei_of_spec _ _ w2id probes directed ids k Hwfd Hwd Hids
                 (proj1 (Forall_forall _ _) Hpos k Hk)).
      reflexivity.
  - rewrite collect_data_mapM; fold directed.
    rewrite (@mapM_ext_in _ _ _
               (fun k => entropy_conditional (fst (sample k)) (snd (sample k)))).
    + clear; induction num_windows_list as [|k l IH]; cbn [mapM map];
        [reflexivity|rewrite IH; reflexivity].
    + intros k Hk.
      rewrite (@cei_of_spec _ _ w2id probes directed ids k Hwfd Hwd Hids
                 (proj1 (Forall_forall _ _) Hpos k Hk)).
      reflexivity.
  - clear Hpos; induction num_windows_list as [|k l IH]; cbn [map]; constructor;
      [|exact IH].
    subst sample; cbn [fst snd]; rewrite !length_map.
    split; [reflexivity|]. split.
    + unfold probe_rows_spec.
      eapply Nat.le_trans; [apply filter_length_le|].
      rewrite length_firstn; apply Nat.le_min_l.
    + apply Forall_forall; intros v Hv.
      apply in_map_iff in Hv; destruct Hv as [r [<- Hr]].
      unfold probe_rows_spec in Hr; apply filter_In in Hr; destruct Hr as [_ Hex].
      apply existsb_exists in Hex; destruct Hex as [z [Hz Heq]].
      apply Z.eqb_eq in Heq; rewrite Heq; exact Hz.
Qed.

End Prefixes.

(** X9: for [0 <= k <= ] the number of rows, the forward prefix of [k] rows
    and the reverse prefix of the remaining [n - k] rows together hold
    every window exactly once. *)
Theorem complementary_prefixes (W : ndarray) (k : Z) :
  0 <= k <= Z.of_nat (nrows W) ->
  Permutation (rows (slice_to k W)
               ++ rows (slice_to (Z.of_nat (nrows W) - k) (flip0 W)))
              (rows W).
Proof.
  intros Hk; rewrite !slice_to_nonneg by lia.
  unfold flip0, nrows in *; cbn [rows].
  rewrite firstn_rev.
  replace (length (rows W) - Z.to_nat (Z.of_nat (length (rows W)) - k))%nat
    with (Z.to_nat k) by lia.
  rewrite <- (firstn_skipn (Z.to_nat k) (rows W)) at 3.
  apply Permutation_app_head; symmetry; apply Permutation_rev.
Qed.

Lemma probe_windows_cumulative_witness :
  exists pw1 pw2 later,
    probe_windows_of AnalysisDemo.w2id AnalysisDemo.probes
      (slice_to 1 AnalysisDemo.four_windows) = Ok pw1 /\
    probe_windows_of AnalysisDemo.w2id AnalysisDemo.probes
      (slice_to 4 AnalysisDemo.four_windows) = Ok pw2 /\
    rows pw2 = rows pw1 ++ later.
Proof.
  apply (@probe_windows_cumulative AnalysisDemo.w2id AnalysisDemo.probes
           AnalysisDemo.four_windows [3; 5] 1 4).
  - repeat constructor.
  - cbn; lia.
  - reflexivity.
  - lia.
Defined.

Lemma no_probe_row_empty_samples_witness :
  cei_of Plugin.entropy_conditional AnalysisDemo.w2id AnalysisDemo.probes
         AnalysisDemo.three_windows (nth 0 (num_windows_list_of 3) 0)
  = Plugin.entropy_conditional [] [].
Proof.
  apply (@no_probe_row_empty_samples _ Plugin.entropy_conditional
           AnalysisDemo.w2id AnalysisDemo.probes AnalysisDemo.three_windows
           [3; 5] (nth 0 (num_windows_list_of 3) 0)).
  - repeat constructor.
  - cbn; lia.
  - reflexivity.
  - vm_compute; discriminate.
  - intros r Hr; vm_compute in Hr; destruct Hr.
Defined.

Lemma collect_data_probe_ids_as_set_witness :
  collect_data Plugin.entropy_conditional AnalysisDemo.w2id AnalysisDemo.probes
    [1; 3] AnalysisDemo.three_windows false
  = collect_data Plugin.entropy_conditional AnalysisDemo.w2id
      ["dog"%string; "cat"%string; "dog"%string]
      [1; 3] AnalysisDemo.three_windows false.
Proof.
  apply (@collect_data_probe_ids_as_set _ Plugin.entropy_conditional
           AnalysisDemo.w2id AnalysisDemo.probes AnalysisDemo.w2id
           ["dog"%string; "cat"%string; "dog"%string] [3; 5] [5; 3; 5]).
  - reflexivity.
  - reflexivity.
  - intros z; cbn; tauto.
Defined.

Lemma estimator_samples_witness :
  exists samples,
    collect_data (fun x y => Ok (x, y)) AnalysisDemo.w2id AnalysisDemo.probes
      [1; 3] AnalysisDemo.three_windows true = Ok samples /\
    collect_data Plugin.entropy_conditional AnalysisDemo.w2id AnalysisDemo.probes
      [1; 3] AnalysisDemo.three_windows true
    = mapM (fun xy => Plugin.entropy_conditional (fst xy) (snd xy)) samples.
Proof.
  destruct (@estimator_samples _ Plugin.entropy_conditional AnalysisDemo.w2id
              AnalysisDemo.probes [1; 3] AnalysisDemo.three_windows true [3; 5])
    as [samples [H1 [H2 _]]].
  - repeat constructor.
  - cbn; lia.
  - reflexivity.
  - repeat constructor; lia.
  - exists samples; split; assumption.
Defined.

Lemma complementary_prefixes_witness :
  Permutation (rows (slice_to 1 AnalysisDemo.four_windows)
               ++ rows (slice_to 3 (flip0 AnalysisDemo.four_windows)))
              (rows AnalysisDemo.four_windows).
Proof.
  apply (@complementary_prefixes AnalysisDemo.four_windows 1); cbn; lia.
Defined.

End AnalysisMore.

(** ** More on the training driver *)

Module JobMore.
Import Job JobSpec JobFacts.

Lemma firstn_add (A : Type) (a b : nat) (l : list A) :
  firstn (a + b) l = firstn a l ++ firstn b (skipn a l).
Proof.
  revert l; induction a as [|a IH]; intros l; [reflexivity|].
  destruct l as [|x l]; cbn [Nat.add firstn skipn app].
  - rewrite firstn_nil; reflexivity.
  - rewrite IH; reflexivity.
Qed.

Section Stream.

Variables float batch RNN : Type.
Variable env : Env float batch RNN.

Lemma stream_after_ticks (opt : Optimizer) (params : Params float) (k : nat) :
  tick_step env <> 0 ->
  let prep := make_train_prep env params (num_total_ticks env) in
  (k < length (eval_mbs prep))%nat ->
  exists s w,
    run_ticks env opt params (S k) = (Ok s, w) /\
    model w = fold_left (train_step env opt)
                (firstn (k * num_mbs_per_eval prep) (generate_batches prep))
                (new_model env params) /\
    windows_generator w = skipn (k * num_mbs_per_eval prep) (generate_batches prep) /\
    train_mb s = Z.of_nat (k * num_mbs_per_eval prep).
Proof.
  intros Hstep prep; induction k as [|k IH]; intros Hk.
  - destruct (@run_ticks_tick _ _ _ env opt params 0%nat Hstep Hk)
      as [s [w [s' [w' [H0 [H1 [Hg Hm]]]]]]].
    unfold run_ticks in H0; cbn [firstn for_each] in H0; unfold ret in H0.
    injection H0 as <- <-.
    exists s', w'; split; [exact H1|].
    cbn [Nat.eqb] in Hg, Hm; rewrite Hg, Hm; cbn [Nat.mul firstn skipn fold_left].
    split; [reflexivity|]. split; [reflexivity|].
    unfold run_ticks in H1; rewrite firstn_enumerate in H1.
    apply (@loop_run _ _ _ env) in H1; destruct H1 as [_ [_ [_ Hmb]]].
    rewrite Hmb; cbn [initial_locals train_mb].
    rewrite length_firstn, Nat.min_l by (fold prep; lia).
    rewrite (trained_from_0 0); reflexivity.
  - destruct IH as [s [w [Hrun [Hm [Hg _]]]]]; [lia|].
    destruct (@run_ticks_tick _ _ _ env opt params (S k) Hstep Hk)
      as [s0 [w0 [s' [w' [H0 [H1 [Hg' Hm']]]]]]].
    fold prep in Hg', Hm'.
    rewrite Hrun in H0; injection H0 as <- <-.
    exists s', w'; split; [exact H1|].
    cbn [Nat.eqb] in Hg', Hm'; rewrite Hg', Hm', Hg, Hm.
    split; [|split].
    + rewrite <- fold_left_app, <- firstn_add.
      f_equal; f_equal; cbn [Nat.mul]; lia.
    + rewrite skipn_skipn; f_equal; cbn [Nat.mul]; lia.
    + unfold run_ticks in H1; rewrite firstn_enumerate in H1.
      apply (@loop_run _ _ _ env) in H1; destruct H1 as [_ [_ [_ Hmb]]].
      rewrite Hmb; cbn [initial_locals train_mb].
      rewrite length_firstn, Nat.min_l by (fold prep; lia).
      rewrite (trained_from_0 (S k)); reflexivity.
Qed.

(** X10: with a non-zero [tick_step], after the ticks [0..k] the model has
    taken one step on each of the first [k * num_mbs_per_eval] batches of
    the generator, in the order the generator yields them, and on no
    other; the generator holds the rest, and [train_mb] is
    [k * num_mbs_per_eval] whether or not that many batches existed. *)
Theorem training_follows_the_stream (opt : Optimizer) (params : Params float)
    (k : nat) :
  tick_step env <> 0 ->
  let prep := make_train_prep env params (num_total_ticks env) in
  (k < length (eval_mbs prep))%nat ->
  exists s w,
    run_ticks env opt params (S k) = (Ok s, w) /\
    model w = fold_left (train_step env opt)
                (firstn (k * num_mbs_per_eval prep) (generate_batches prep))
                (new_model env params) /\
    windows_generator w = skipn (k * num_mbs_per_eval prep) (generate_batches prep) /\
    train_mb s = Z.of_nat (k * num_mbs_per_eval prep).
Proof. intros Hstep prep Hk; apply stream_after_ticks; assumption. Qed.

(** X11: once the generator has run dry the run goes on in silence: if
    the generator held at most [k * num_mbs_per_eval] batches, then from
    tick [k] on it is empty, every later tick leaves the model as it was,
    trained on each batch once, and [train_mb] keeps counting
    [num_mbs_per_eval] per tick. *)
Theorem exhausted_generator_is_silent (opt : Optimizer) (params : Params float)
    (k k' : nat) :
  tick_step env <> 0 ->
  let prep := make_train_prep env params (num_total_ticks env) in
  (k <= k' < length (eval_mbs prep))%nat ->
  (length (generate_batches prep) <= k * num_mbs_per_eval prep)%nat ->
  exists s w,
    run_ticks env opt params (S k') = (Ok s, w) /\
    windows_generator w = [] /\
    model w = fold_left (train_step env opt) (generate_batches prep)
                        (new_model env params) /\
    model w = model (snd (run_ticks env opt params (S k))) /\
    train_mb s = Z.of_nat (k' * num_mbs_per_eval prep).
Proof.
  intros Hstep prep Hk Hshort.
  destruct (@stream_after_ticks opt params k Hstep)
    as [s0 [w0 [H0 [Hm0 _]]]]; [fold prep; lia|].
  destruct (@stream_after_ticks opt params k' Hstep)
    as [s [w [H1 [Hm [Hg Hmb]]]]]; [fold prep; lia|].
  fold prep in Hm0, Hm, Hg, Hmb.
  assert (Hk' : (length (generate_batches prep) <= k' * num_mbs_per_eval prep)%nat).
  { eapply Nat.le_trans; [exact Hshort|].
    apply Nat.mul_le_mono_r; lia. }
  exists s, w; split; [exact H1|].
  rewrite H0; cbn [snd].
  rewrite Hg, Hm, Hm0, skipn_all2, !firstn_all2 by assumption.
  repeat split; assumption.
Qed.

(** *** The schedule at its edges *)

Lemma scheduled_below_start (tick : nat) :
  Z.of_nat tick < num_start_ticks env -> scheduled env tick = Ok true.
Proof.
  intros H; unfold scheduled.
  destruct (Z.ltb_spec (Z.of_nat tick) (num_start_ticks env)); [reflexivity|lia].
Qed.

Lemma loop_below_start (opt : Optimizer) (prep : Prep batch) (l : list Z) (i : nat)
    (s : locals float) (w : world float batch RNN) :
  Z.of_nat (i + length l) <= num_start_ticks env ->
  exists s' w',
    for_each (tick_body env opt prep) (combine (seq i (length l)) l) s w = (Ok s', w') /\
    performance_mbs s' = performance_mbs s ++ l.
Proof.
  revert i s w; induction l as [|x l IH]; intros i s w Hi.
  - exists s, w; split; [reflexivity|rewrite app_nil_r; reflexivity].
  - cbn [length seq combine for_each]; unfold pbind.
    destruct (@tick_body_run _ _ _ env opt prep i x s w true)
      as [s1 [w1 [Hrun [_ [_ [_ [_ [Hmbs _]]]]]]]];
      [apply scheduled_below_start; cbn [length] in Hi; lia|].
    rewrite Hrun.
    destruct (IH (S i) s1 w1) as [s' [w' [Hrest Hmbs']]];
      [cbn [length] in Hi; lia|].
    exists s', w'; split; [exact Hrest|].
    rewrite Hmbs', Hmbs, <- app_assoc; reflexivity.
Qed.

(** X12: when every tick lies within the first [num_start_ticks], the
    remainder of line 141 is never taken: whatever [tick_step] is, zero
    included, the loop runs through all ticks and evaluates the probes at
    each of them, so the marker list is [eval_mbs] itself. *)
Theorem warm_up_never_divides (opt : Optimizer) (params : Params float) :
  let prep := make_train_prep env params (num_total_ticks env) in
  Z.of_nat (length (eval_mbs prep)) <= num_start_ticks env ->
  exists s w,
    run_ticks env opt params (length (eval_mbs prep)) = (Ok s, w) /\
    performance_mbs s = eval_mbs prep /\
    completed_ticks (stdout w) = seq 0 (length (eval_mbs prep)).
Proof.
  intros prep Hall.
  destruct (@loop_below_start opt prep (eval_mbs prep) 0 (initial_locals float)
              (initial_world env params) Hall) as [s [w [Hrun Hmbs]]].
  exists s, w.
  assert (Hrun' : run_ticks env opt params (length (eval_mbs prep)) = (Ok s, w)).
  { unfold run_ticks; fold prep.
    replace (length (eval_mbs prep)) with (length (enumerate (eval_mbs prep))) at 1
      by (unfold enumerate; rewrite length_combine, length_seq; apply Nat.min_id).
    rewrite firstn_all; exact Hrun. }
  split; [exact Hrun'|]. split; [exact Hmbs|].
  apply (@loop_run _ _ _ env) in Hrun; destruct Hrun as [Hout _]; exact Hout.
Qed.

Lemma tick_body_stuck_world (opt : Optimizer) (prep : Prep batch) (tick : nat)
    (eval_mb : Z) (s : locals float) (w : world float batch RNN) (e : exn) :
  scheduled env tick = Raise e ->
  exists w',
    tick_body env opt prep (tick, eval_mb) s w = (Raise e, w') /\
    windows_generator w' =
      (if Nat.eqb tick 0 then windows_generator w
       else skipn (num_mbs_per_eval prep) (windows_generator w)) /\
    completed_ticks (stdout w') = completed_ticks (stdout w).
Proof.
  intros Hs; unfold tick_body, train_phase, eval_phase, train_on_corpus,
    print, pbind, lift, ret.
  destruct (Nat.eqb tick 0); rewrite Hs; cbn -[completed_ticks];
    eexists; (split; [reflexivity|]); cbn -[completed_ticks];
    rewrite ?completed_ticks_app, ?app_nil_r; split; reflexivity.
Qed.

Lemma skipn_cons_nth (A : Type) (l : list A) (n : nat) (a : A) :
  nth_error l n = Some a -> skipn n l = a :: skipn (S n) l.
Proof.
  revert n; induction l as [|x l IH]; intros [|n] H; try discriminate H.
  - injection H as ->; reflexivity.
  - cbn [skipn]; apply IH; exact H.
Qed.

(** X13: a [tick_step] of zero with [num_start_ticks >= 0] warm-up ticks
    ends the run with a [ZeroDivisionError] at the first tick past the
    warm-up, if there is one: the ticks before it have run to their end,
    and the training phase of that tick has already drawn its batches when
    the schedule is evaluated. *)
Theorem zero_tick_step_stops_the_run (opt : Optimizer) (params : Params float) :
  select_optimizer params = Ok opt ->
  tick_step env = 0 ->
  0 <= num_start_ticks env ->
  let prep := make_train_prep env params (num_total_ticks env) in
  let m := Z.to_nat (num_start_ticks env) in
  (m < length (eval_mbs prep))%nat ->
  exists w,
    main env params = (Raise ZeroDivisionError, w) /\
    completed_ticks (stdout w) = seq 0 m /\
    windows_generator w = skipn (m * num_mbs_per_eval prep) (generate_batches prep).
Proof.
  intros Hopt Hstep Hstart prep m Hm.
  rewrite (main_after_setup env params Hopt); fold prep.
  destruct (nth_error (eval_mbs prep) m) as [x|] eqn:Hnth;
    [|apply nth_error_None in Hnth; lia].
  rewrite <- (firstn_skipn m (enumerate (eval_mbs prep))).
  rewrite (@skipn_cons_nth _ (enumerate (eval_mbs prep)) m (m, x))
    by (apply (@nth_error_combine_seq _ (eval_mbs prep) 0 m x Hnth)).
  rewrite firstn_enumerate.
  unfold pbind at 1; rewrite for_each_app; unfold pbind at 1.
  destruct (@loop_below_start opt prep (firstn m (eval_mbs prep)) 0
              (initial_locals float) (initial_world env params))
    as [s1 [w1 [Hrun _]]].
  { rewrite length_firstn; subst m; lia. }
  unfold enumerate; rewrite Hrun.
  pose proof Hrun as Hfacts; apply (@loop_run _ _ _ env) in Hfacts.
  destruct Hfacts as [Hout [Hgen _]].
  rewrite length_firstn, Nat.min_l in Hout, Hgen by lia.
  assert (Hs : scheduled env m = Raise ZeroDivisionError).
  { unfold scheduled.
    destruct (Z.ltb_spec (Z.of_nat m) (num_start_ticks env)); [subst m; lia|].
    rewrite Hstep; reflexivity. }
  destruct (@tick_body_stuck_world opt prep m x s1 w1 _ Hs)
    as [w2 [Hbody [Hgen2 Hout2]]].
  cbn [for_each]; unfold pbind at 1; rewrite Hbody.
  exists w2; split; [reflexivity|].
  split; [rewrite Hout2, Hout; reflexivity|].
  rewrite Hgen2, Hgen; cbn [initial_world windows_generator]; fold prep.
  destruct m as [|m']; cbn [Nat.eqb]; [reflexivity|].
  rewrite (trained_from_0 m'), skipn_skipn; f_equal; cbn [Nat.mul]; lia.
Qed.

(** X14: if the probes are due at tick 0 (there is a warm-up, or
    [tick_step] is not zero), the first iteration evaluates the network as
    it was constructed: no batch is drawn, the first marker of [eval_mbs]
    opens [performance_mbs], and the four updates see the untrained
    model. *)
Theorem first_tick_evaluates_untrained_model (opt : Optimizer)
    (params : Params float) (m0 : Z) (rest : list Z) :
  0 < num_start_ticks env \/ tick_step env <> 0 ->
  let prep := make_train_prep env params (num_total_ticks env) in
  eval_mbs prep = m0 :: rest ->
  exists s w,
    run_ticks env opt params 1 = (Ok s, w) /\
    performance_mbs s = [m0] /\
    performance s =
      update_ba_performance env
        (update_pp_performance env
           (update_dp_performance env
              (update_cs_performance env (performance (initial_locals float))
                 (new_model env params) prep)
              (new_model env params) prep)
           (new_model env params) prep)
        (new_model env params) prep /\
    model w = new_model env params /\
    windows_generator w = generate_batches prep.
Proof.
  intros Hdue prep Hmbs.
  assert (Hs : scheduled env 0 = Ok true).
  { unfold scheduled; cbn [Z.of_nat].
    destruct (Z.ltb_spec 0 (num_start_ticks env)); [reflexivity|].
    destruct Hdue as [|Hstep]; [lia|].
    destruct (Z.eqb_spec (tick_step env) 0); [contradiction|].
    rewrite Z.mod_0_l by assumption; reflexivity. }
  destruct (@tick_body_run _ _ _ env opt prep 0%nat m0 (initial_locals float)
              (initial_world env params) true Hs)
    as [s [w [Hrun [Hg [Hm [_ [_ [Hpm Hperf]]]]]]]].
  exists s, w.
  assert (Hrun1 : run_ticks env opt params 1 = (Ok s, w)).
  { unfold run_ticks; fold prep; rewrite Hmbs.
    cbn [enumerate length seq combine firstn for_each]; unfold pbind.
    rewrite Hrun; reflexivity. }
  cbn [Nat.eqb] in Hg, Hm.
  split; [exact Hrun1|]. split; [rewrite Hpm; reflexivity|].
  split; [rewrite Hperf, Hm; reflexivity|].
  split; [rewrite Hm|rewrite Hg]; reflexivity.
Qed.

(** *** The returned series *)

Lemma collect_series_fits (items : Performance float) (mbs : list Z)
    (acc : list (Series float)) :
  collect_series items mbs acc =
  if forallb (SeriesSpec.fits mbs) items
  then Ok (acc ++ map (SeriesSpec.series_over mbs)
                      (filter (@SeriesSpec.has_values float) items))
  else Raise ValueError.
Proof.
  revert acc; induction items as [|[k v] items IH]; intros acc;
    cbn [collect_series forallb filter map].
  - rewrite app_nil_r; reflexivity.
  - unfold SeriesSpec.fits at 1, SeriesSpec.has_values at 1 3; cbn [snd].
    destruct v as [|x v]; cbn [negb orb andb]; [apply IH|].
    unfold make_series.
    destruct (Nat.eqb (length (x :: v)) (length mbs)); cbn [bind andb];
      [|reflexivity].
    rewrite IH; destruct (forallb _ items); [|reflexivity].
    cbn [map]; rewrite <- app_assoc; reflexivity.
Qed.

(** X15: with a valid optimizer and a non-zero [tick_step] the loop runs
    through every tick, and only then are the series built: [main] returns
    one series per non-empty entry of [performance], in the order of the
    dictionary and each over [performance_mbs], if every non-empty entry
    holds one value per marker; otherwise it ends in the [ValueError] of
    [pd.Series], after all the training. *)
Theorem series_built_after_all_ticks (opt : Optimizer) (params : Params float) :
  select_optimizer params = Ok opt ->
  tick_step env <> 0 ->
  let prep := make_train_prep env params (num_total_ticks env) in
  exists s w,
    run_ticks env opt params (length (eval_mbs prep)) = (Ok s, w) /\
    completed_ticks (stdout w) = seq 0 (length (eval_mbs prep)) /\
    main env params =
      (if forallb (SeriesSpec.fits (performance_mbs s)) (performance s)
       then Ok (map (SeriesSpec.series_over (performance_mbs s))
                    (filter (@SeriesSpec.has_values float) (performance s)))
       else Raise ValueError, w).
Proof.
  intros Hopt Hstep prep.
  destruct (@loop_total _ _ _ env opt prep (enumerate (eval_mbs prep))
              (initial_locals float) (initial_world env params) Hstep)
    as [s [w Hloop]].
  exists s, w.
  assert (Hrun : run_ticks env opt params (length (eval_mbs prep)) = (Ok s, w)).
  { unfold run_ticks; fold prep.
    replace (length (eval_mbs prep)) with (length (enumerate (eval_mbs prep))) at 1
      by (unfold enumerate; rewrite length_combine, length_seq; apply Nat.min_id).
    rewrite firstn_all; exact Hloop. }
  split; [exact Hrun|]. split.
  - pose proof Hloop as Hfacts; apply (@loop_run _ _ _ env) in Hfacts.
    destruct Hfacts as [Hout _]; exact Hout.
  - rewrite (main_after_setup env params Hopt); fold prep.
    unfold pbind, lift; rewrite Hloop, collect_series_fits; reflexivity.
Qed.

End Stream.

(** *** Small runs *)

Lemma training_follows_the_stream_witness :
  exists s w,
    run_ticks Demo.env SGD (Demo.params "sgd") 3 = (Ok s, w) /\
    model w = [0; 1; 2; 3; 4; 5] /\
    windows_generator w = [6; 7; 8; 9; 10; 11] /\
    train_mb s = 6.
Proof.
  apply (@training_follows_the_stream _ _ _ Demo.env SGD (Demo.params "sgd") 2%nat).
  - cbn; lia.
  - cbn; lia.
Defined.

Lemma exhausted_generator_is_silent_witness :
  exists s w,
    run_ticks (DemoMore.env_with 2 2 5) SGD (Demo.params "sgd") 5 = (Ok s, w) /\
    windows_generator w = [] /\
    model w = [0; 1; 2; 3; 4] /\
    train_mb s = 12.
Proof.
  destruct (@exhausted_generator_is_silent _ _ _ (DemoMore.env_with 2 2 5) SGD
              (Demo.params "sgd") 2%nat 4%nat)
    as [s [w [H1 [H2 [H3 [_ H4]]]]]]; [cbn; lia | cbn; lia | cbn; lia |].
  exists s, w; repeat split; assumption.
Defined.

Lemma warm_up_never_divides_witness :
  exists s w,
    run_ticks (DemoMore.env_with 5 0 12) SGD (Demo.params "sgd") 5 = (Ok s, w) /\
    performance_mbs s = [0; 3; 6; 9; 12].
Proof.
  destruct (@warm_up_never_divides _ _ _ (DemoMore.env_with 5 0 12) SGD
              (Demo.params "sgd")) as [s [w [H1 [H2 _]]]]; [cbn; lia|].
  exists s, w; split; assumption.
Defined.

Lemma zero_tick_step_stops_the_run_witness :
  exists w,
    main (DemoMore.env_with 2 0 12) (Demo.params "sgd")
      = (Raise ZeroDivisionError, w) /\
    completed_ticks (stdout w) = [0; 1]%nat /\
    windows_generator w = [6; 7; 8; 9; 10; 11].
Proof.
  apply (@zero_tick_step_stops_the_run _ _ _ (DemoMore.env_with 2 0 12) SGD
           (Demo.params "sgd")).
  - reflexivity.
  - reflexivity.
  - cbn; lia.
  - cbn; lia.
Defined.

Lemma first_tick_evaluates_untrained_model_witness :
  exists s w,
    run_ticks Demo.env SGD (Demo.params "sgd") 1 = (Ok s, w) /\
    performance_mbs s = [0] /\ model w = [].
Proof.
  destruct (@first_tick_evaluates_untrained_model _ _ _ Demo.env SGD
              (Demo.params "sgd") 0 [3; 6; 9; 12])
    as [s [w [H1 [H2 [_ [H3 _]]]]]]; [left; cbn; lia | reflexivity |].
  exists s, w; repeat split; assumption.
Defined.

Lemma series_built_after_all_ticks_witness :
  exists res w,
    main Demo.env (Demo.params "adagrad") = (Ok res, w) /\
    map (@name Z) res = ["train_pp"; "test_pp"; "cs"; "dp"; "ba"]%string /\
    completed_ticks (stdout w) = [0; 1; 2; 3; 4]%nat.
Proof.
  destruct (@series_built_after_all_ticks _ _ _ Demo.env Adagrad
              (Demo.params "adagrad"))
    as [s [w [Hrun [Hout Hmain]]]]; [reflexivity | cbn; lia |].
  vm_compute in Hrun; injection Hrun as <- <-.
  eexists; eexists; split; [exact Hmain|]; split; reflexivity.
Defined.

End JobMore.

(** ** The parameter class *)

Module ParamsFacts.
Import ParamsClass.

Section Construction.

Variable float : Type.

Lemma mem_In (k : string) (ks : list string) : mem k ks = true <-> In k ks.
Proof.
  unfold mem; rewrite existsb_exists; split.
  - intros [k' [Hin Heq]]; apply String.eqb_eq in Heq; subst k'; exact Hin.
  - intros Hin; exists k; split; [exact Hin|apply String.eqb_refl].
Qed.

Lemma lookup_In (d : dict float) (k : string) (v : pyval float) :
  lookup d k = Some v -> In k (map fst d).
Proof.
  induction d as [|[k' v'] d IH]; cbn [lookup map fst In]; [discriminate|].
  destruct (String.eqb_spec k' k) as [->|_]; [left; reflexivity|].
  intros H; right; apply IH, H.
Qed.

Lemma lookup_filter (q : string -> bool) (d : dict float) (k : string) :
  q k = true -> lookup (filter (fun kv => q (fst kv)) d) k = lookup d k.
Proof.
  intros Hq; induction d as [|[k' v'] d IH]; cbn [filter lookup fst]; [reflexivity|].
  destruct (q k') eqn:Hq'; cbn [lookup].
  - rewrite IH; reflexivity.
  - destruct (String.eqb_spec k' k) as [->|_]; [congruence|exact IH].
Qed.

Lemma lookup_setitem (k k' : string) (v : pyval float) (d : dict float) :
  lookup (setitem k v d) k' = if String.eqb k k' then Some v else lookup d k'.
Proof.
  induction d as [|[k0 v0] d IH]; cbn [setitem lookup].
  - reflexivity.
  - destruct (String.eqb_spec k0 k) as [->|Hk0]; cbn [lookup].
    + destruct (String.eqb k k'); reflexivity.
    + destruct (String.eqb_spec k0 k') as [->|_]; [|exact IH].
      destruct (String.eqb_spec k k') as [->|_]; [contradiction|reflexivity].
Qed.

Lemma setitem_keys (k k' : string) (v : pyval float) (d : dict float) :
  In k' (map fst (setitem k v d)) -> k' = k \/ In k' (map fst d).
Proof.
  induction d as [|[k0 v0] d IH]; cbn [setitem map fst In].
  - intros [<-|[]]; left; reflexivity.
  - destruct (String.eqb_spec k0 k) as [->|_]; cbn [map fst In].
    + intros [<-|H]; [left; reflexivity|right; right; exact H].
    + intros [<-|H]; [right; left; reflexivity|].
      destruct (IH H) as [->|H']; [left; reflexivity|right; right; exact H'].
Qed.

Lemma init_built (fs : list (string * pytype)) (kwargs attrs : dict float) :
  init fs kwargs = Built attrs <->
  (forall k, In k (map fst kwargs) -> In k (map fst fs)) /\
  Forall2 (assigned kwargs) fs attrs.
Proof.
  unfold init.
  assert (Hkeys : forallb (fun kv : string * pyval float => mem (fst kv) (map fst fs)) kwargs
                  = true <-> forall k, In k (map fst kwargs) -> In k (map fst fs)).
  { rewrite forallb_forall; split.
    - intros H k Hk; apply in_map_iff in Hk; destruct Hk as [kv [<- Hkv]].
      apply mem_In, H, Hkv.
    - intros H kv Hkv; apply mem_In, H, in_map, Hkv. }
  assert (Hbind : forall attrs',
            (bind_arguments fs kwargs = Some attrs' /\ validate fs attrs' = true)
            <-> Forall2 (assigned kwargs) fs attrs').
  { clear; induction fs as [|[name t] fs IH]; intros attrs'; cbn [bind_arguments].
    - split.
      + intros [[= <-] _]; constructor.
      + intros H; inversion H; split; reflexivity.
    - split.
      + destruct (lookup kwargs name) as [v|] eqn:Hl; [|intros [[=] _]].
        destruct (bind_arguments fs kwargs) as [rest|]; [|intros [[=] _]].
        intros [[= <-] Hv]; cbn [validate] in Hv.
        apply andb_true_iff in Hv; destruct Hv as [Hi Hv].
        constructor; [repeat split; assumption|].
        apply IH; split; [reflexivity|exact Hv].
      + intros H; inversion H as [|f a fs' rest [Hn [Hl Hi]] Hrest]; subst.
        destruct a as [n v]; cbn [fst snd] in *; subst n.
        apply IH in Hrest; destruct Hrest as [Hb Hv].
        rewrite Hl, Hb; cbn [validate]; rewrite Hi, Hv; split; reflexivity. }
  destruct (forallb _ kwargs).
  - split.
    + destruct (bind_arguments fs kwargs) as [attrs'|] eqn:Hb; [|discriminate].
      destruct (validate fs attrs') eqn:Hv; [|discriminate].
      intros [= <-]; split; [apply Hkeys; reflexivity|].
      apply Hbind; split; [reflexivity | exact Hv].
    + intros [_ H]; apply Hbind in H; destruct H as [-> ->]; reflexivity.
  - split; [discriminate|].
    intros [H _]; apply Hkeys in H; discriminate.
Qed.

Lemma from_param2val_built (param2val attrs : dict float) :
  from_param2val param2val = Built attrs <->
  (forall k, In k (map fst param2val) ->
     In k bookkeeping \/ In k (map fst fields)) /\
  Forall2 (assigned param2val) fields attrs.
Proof.
  unfold from_param2val; rewrite init_built.
  set (q := fun k => negb (mem k bookkeeping)).
  change (filter (fun kv : string * pyval float => negb (mem (fst kv) bookkeeping)) param2val)
    with (filter (fun kv : string * pyval float => q (fst kv)) param2val).
  assert (Hfields : forall f, In f fields -> q (fst f) = true).
  { apply Forall_forall; repeat constructor. }
  assert (Hassigned : forall attrs',
            Forall2 (assigned (filter (fun kv => q (fst kv)) param2val)) fields attrs'
            <-> Forall2 (assigned param2val) fields attrs').
  { intros attrs'; revert Hfields; generalize fields; clear.
    intros fs Hfs; revert attrs'; induction fs as [|f fs IH]; intros attrs'.
    - split; intros H; inversion H; constructor.
    - assert (Hrest : forall f', In f' fs -> q (fst f') = true)
        by (intros f' Hf'; apply Hfs; right; exact Hf').
      split; intros H; inversion H as [|f0 a fs0 rest [Hn [Hl Hi]] Hr]; subst;
        (constructor; [|apply (IH Hrest), Hr]);
        (split; [exact Hn|split; [|exact Hi]]).
      + rewrite <- Hl; symmetry; apply lookup_filter, Hfs; left; reflexivity.
      + rewrite <- Hl; apply lookup_filter, Hfs; left; reflexivity. }
  rewrite Hassigned.
  split; intros [Hkeys Hvals]; (split; [|exact Hvals]).
  - intros k Hk.
    destruct (mem k bookkeeping) eqn:Hm; [left; apply mem_In, Hm|].
    right; apply Hkeys.
    apply in_map_iff in Hk; destruct Hk as [kv [<- Hkv]].
    apply in_map, filter_In; split; [exact Hkv|].
    unfold q; rewrite Hm; reflexivity.
  - intros k Hk.
    apply in_map_iff in Hk; destruct Hk as [kv [<- Hkv]].
    apply filter_In in Hkv; destruct Hkv as [Hkv Hq].
    destruct (Hkeys (fst kv) (in_map fst _ _ Hkv)) as [Hb|Hf]; [|exact Hf].
    apply mem_In in Hb; unfold q in Hq; rewrite Hb in Hq; discriminate.
Qed.

(** X16: [from_param2val] builds an instance exactly when every key of the
    dictionary is one of the four bookkeeping keys or an attribute of the
    class, and every attribute has a value of the type its validator
    names; the instance then holds the values of the dictionary, in the
    order of the class body.  A foreign key, a missing attribute or a
    value of another type is a [TypeError]. *)
Theorem from_param2val_accepts_exactly (param2val attrs : dict float) :
  from_param2val param2val = Built attrs <->
  (forall k, In k (map fst param2val) ->
     In k bookkeeping \/ In k (map fst fields)) /\
  Forall2 (assigned param2val) fields attrs.
Proof. apply from_param2val_built. Qed.

(** *** Changing one parameter *)

Lemma field_type_unique (fs : list (string * pytype)) (k : string) (a b : pytype) :
  NoDup (map fst fs) -> In (k, a) fs -> In (k, b) fs -> a = b.
Proof.
  induction fs as [|[k0 t0] fs IH]; cbn [map fst In]; intros Hnd Ha Hb; [destruct Ha|].
  apply NoDup_cons_iff in Hnd; destruct Hnd as [Hk0 Hnd].
  assert (Hin : forall c, In (k, c) fs -> In k (map fst fs))
    by (intros c Hc; change k with (fst (k, c)); apply in_map, Hc).
  destruct Ha as [Ha|Ha], Hb as [Hb|Hb].
  - congruence.
  - exfalso; apply Hk0; replace k0 with k by congruence; apply (Hin b Hb).
  - exfalso; apply Hk0; replace k0 with k by congruence; apply (Hin a Ha).
  - apply IH; assumption.
Qed.

Lemma fields_NoDup : NoDup (map fst fields).
Proof.
  cbn [fields map fst].
  repeat (constructor; [cbn [In]; intuition discriminate|]).
  constructor.
Qed.

Lemma Forall2_In_l (A B : Type) (R : A -> B -> Prop) (l : list A) (l' : list B) (a : A) :
  Forall2 R l l' -> In a l -> exists b, In b l' /\ R a b.
Proof.
  induction 1 as [|x y l l' Hxy _ IH]; intros Hin; [destruct Hin|].
  destruct Hin as [<-|Hin]; [exists y; split; [left; reflexivity|exact Hxy]|].
  destruct (IH Hin) as [b [Hb HR]]; exists b; split; [right; exact Hb|exact HR].
Qed.

Lemma assigned_after_setitem (fs : list (string * pytype)) (d attrs : dict float)
    (name : string) (t : pytype) (v : pyval float) :
  Forall2 (assigned d) fs attrs ->
  (forall f, In f fs -> fst f = name -> snd f = t) ->
  isinstance v t = true ->
  Forall2 (assigned (setitem name v d)) fs
          (map (fun a => if String.eqb name (fst a) then (fst a, v) else a) attrs).
Proof.
  intros Hvals; induction Hvals as [|f a fs rest Hfa _ IH]; intros Htype Hv;
    cbn [map]; constructor.
  - destruct Hfa as [Hn [Hl Hi]].
    unfold assigned; rewrite lookup_setitem, Hn.
    destruct (String.eqb_spec name (fst f)) as [Heq|_]; cbn [fst snd].
    + rewrite (Htype f (or_introl eq_refl) (eq_sym Heq)).
      repeat split; assumption.
    + repeat split; assumption.
  - apply IH; [|exact Hv].
    intros f' Hf'; apply Htype; right; exact Hf'.
Qed.

Lemma from_param2val_setitem (param2val attrs : dict float) (name : string)
    (t : pytype) (v : pyval float) :
  from_param2val param2val = Built attrs ->
  In (name, t) fields ->
  (isinstance v t = true ->
   exists attrs', from_param2val (setitem name v param2val) = Built attrs' /\
                  Forall2 (assigned (setitem name v param2val)) fields attrs') /\
  (isinstance v t = false ->
   from_param2val (setitem name v param2val) = TypeError).
Proof.
  intros Hbuilt Hfield.
  apply from_param2val_built in Hbuilt; destruct Hbuilt as [Hkeys Hvals].
  split.
  - intros Hv.
    set (g := fun a : string * pyval float =>
                if String.eqb name (fst a) then (fst a, v) else a).
    assert (Hnew : Forall2 (assigned (setitem name v param2val)) fields (map g attrs)).
    { apply assigned_after_setitem with (t := t); [exact Hvals| |exact Hv].
      intros [n t'] Hf Hn; cbn [fst snd] in *; subst n.
      apply (@field_type_unique fields name t' t fields_NoDup Hf Hfield). }
    exists (map g attrs); split; [|exact Hnew].
    apply from_param2val_built; split; [|exact Hnew].
    intros k Hk; apply setitem_keys in Hk; destruct Hk as [->|Hk];
      [right; change name with (fst (name, t)); apply in_map, Hfield|].
    apply Hkeys, Hk.
  - intros Hv.
    destruct (from_param2val (setitem name v param2val)) as [attrs'|] eqn:Hnew;
      [|reflexivity].
    apply from_param2val_built in Hnew; destruct Hnew as [_ Hnew].
    destruct (@Forall2_In_l _ _ _ _ _ (name, t) Hnew Hfield) as [a [_ [_ [Hl Hi]]]].
    cbn [fst snd] in Hl, Hi.
    rewrite lookup_setitem, String.eqb_refl in Hl; injection Hl as Hl.
    rewrite <- Hl, Hv in Hi; discriminate.
Qed.

(** X17: in a dictionary that builds an instance, giving an attribute a
    new value builds an instance again, with that value, if the value has
    the type the validator of the attribute names, and is a [TypeError]
    otherwise. *)
Theorem setting_a_parameter (param2val attrs : dict float) (name : string)
    (t : pytype) (v : pyval float) :
  from_param2val param2val = Built attrs ->
  In (name, t) fields ->
  (isinstance v t = true ->
   exists attrs', from_param2val (setitem name v param2val) = Built attrs' /\
                  Forall2 (assigned (setitem name v param2val)) fields attrs') /\
  (isinstance v t = false ->
   from_param2val (setitem name v param2val) = TypeError).
Proof. apply from_param2val_setitem. Qed.

(** X18: the validators follow [isinstance]: a boolean is accepted for
    every integer attribute, since [bool] is a subclass of [int], while an
    integer is rejected with a [TypeError] for the learning rate, which
    must be a float, and for every boolean attribute. *)
Theorem booleans_pass_for_integers (param2val attrs : dict float) :
  from_param2val param2val = Built attrs ->
  (forall name b, In (name, TInt) fields ->
     exists attrs', from_param2val (setitem name (PyBool b) param2val) = Built attrs') /\
  (forall z, from_param2val (setitem "lr" (PyInt z) param2val) = TypeError) /\
  (forall name z, In (name, TBool) fields ->
     from_param2val (setitem name (PyInt z) param2val) = TypeError).
Proof.
  intros Hbuilt; split; [|split].
  - intros name b Hf.
    destruct (proj1 (@from_param2val_setitem param2val attrs name TInt (PyBool b) Hbuilt Hf) eq_refl)
      as [attrs' [H _]].
    exists attrs'; exact H.
  - intros z.
    apply (proj2 (@from_param2val_setitem param2val attrs "lr" TFloat (PyInt z)
                    Hbuilt ltac:(cbn; tauto)) eq_refl).
  - intros name z Hf.
    apply (proj2 (@from_param2val_setitem param2val attrs name TBool (PyInt z) Hbuilt Hf) eq_refl).
Qed.

End Construction.

Lemma setting_a_parameter_witness :
  from_param2val (setitem "optimizer" (PyInt 1) ParamsDemo.param2val) = TypeError.
Proof.
  destruct (from_param2val ParamsDemo.param2val) as [attrs|] eqn:Hb;
    [|vm_compute in Hb; discriminate Hb].
  apply (proj2 (@setting_a_parameter Z ParamsDemo.param2val attrs "optimizer"
                  TStr (PyInt 1) Hb ltac:(cbn; tauto)) eq_refl).
Defined.

Lemma booleans_pass_for_integers_witness :
  (exists attrs',
     from_param2val (setitem "num_parts" (PyBool true) ParamsDemo.param2val)
     = Built attrs') /\
  from_param2val (setitem "lr" (PyInt 1) ParamsDemo.param2val) = TypeError.
Proof.
  destruct (from_param2val ParamsDemo.param2val) as [attrs|] eqn:Hb;
    [|vm_compute in Hb; discriminate Hb].
  destruct (@booleans_pass_for_integers Z ParamsDemo.param2val attrs Hb)
    as [H1 [H2 _]].
  split; [apply H1; cbn; tauto|apply H2].
Defined.

End ParamsFacts.

(** ** The excluded probes *)

Module WordsFacts.
Import Words.

Local Open Scope string_scope.

Lemma split_newline_cons (s : string) :
  exists piece pieces, split_newline s = piece :: pieces.
Proof.
  induction s as [|c s [piece [pieces IH]]]; cbn [split_newline]; [eauto|].
  destruct (Ascii.eqb c newline); [eauto|].
  rewrite IH; eauto.
Qed.

Lemma join_newline_cons (piece : string) (pieces : list string) :
  join_newline (piece :: pieces) =
  match pieces with
  | [] => piece
  | _ :: _ => piece ++ String newline (join_newline pieces)
  end.
Proof. destruct pieces; reflexivity. Qed.

Lemma join_split (text : string) : join_newline (split_newline text) = text.
Proof.
  induction text as [|c s IH]; [reflexivity|]; cbn [split_newline].
  destruct (split_newline_cons s) as [piece [pieces Hs]].
  destruct (Ascii.eqb_spec c newline) as [->|_].
  - rewrite join_newline_cons, Hs, <- Hs, IH; reflexivity.
  - rewrite Hs in IH |- *; rewrite join_newline_cons in IH |- *.
    destruct pieces; cbn [append]; rewrite IH; reflexivity.
Qed.

Lemma split_one_line (text : string) :
  Forall (fun w => one_line w = true) (split_newline text).
Proof.
  induction text as [|c s IH]; cbn [split_newline]; [repeat constructor|].
  destruct (Ascii.eqb c newline) eqn:Hc; [constructor; [reflexivity|exact IH]|].
  destruct (split_newline s) as [|piece pieces];
    [repeat constructor; cbn [one_line]; rewrite Hc; reflexivity|].
  apply Forall_cons_iff in IH; destruct IH as [Hp Hps].
  constructor; [cbn [one_line]; rewrite Hc, Hp; reflexivity|exact Hps].
Qed.

Lemma split_length (text : string) :
  length (split_newline text) = S (count_newlines text).
Proof.
  induction text as [|c s IH]; cbn [split_newline count_newlines]; [reflexivity|].
  destruct (Ascii.eqb c newline); cbn [length Nat.add]; [rewrite IH; reflexivity|].
  destruct (split_newline s); cbn [length] in *; [discriminate IH|exact IH].
Qed.

(** X19: the excluded probes are the lines of the file: joined by
    newlines they give the text back, none of them holds a newline, and
    there is one more of them than there are newlines in the text; so an
    empty file excludes one word, the empty one. *)
Theorem excluded_probes_are_the_lines (text : string) :
  exists words,
    excluded_probes true text = Some words /\
    join_newline words = text /\
    Forall (fun w => one_line w = true) words /\
    length words = S (count_newlines text).
Proof.
  exists (split_newline text); split; [reflexivity|].
  split; [apply join_split|]. split; [apply split_one_line|apply split_length].
Qed.

Lemma split_append (a b : string) :
  split_newline (a ++ String newline b)
  = (split_newline a ++ split_newline b)%list.
Proof.
  induction a as [|c a IH]; cbn [append split_newline].
  - rewrite Ascii.eqb_refl; reflexivity.
  - rewrite IH; destruct (Ascii.eqb c newline); [reflexivity|].
    destruct (split_newline_cons a) as [piece [pieces ->]]; reflexivity.
Qed.

(** X20: the lines of two texts joined by a newline are the lines of the
    first followed by the lines of the second; in particular a file that
    ends with a newline excludes the empty word as its last probe. *)
Theorem lines_of_joined_texts (a b : string) :
  excluded_probes true (a ++ String newline b)
    = Some (split_newline a ++ split_newline b)%list /\
  excluded_probes true (a ++ String newline EmptyString)
    = Some (split_newline a ++ [EmptyString])%list.
Proof.
  unfold excluded_probes; rewrite !split_append; split; reflexivity.
Qed.

(** X21: a list of at least one word, none of which holds a newline, is
    read back as it was written, one word per line. *)
Theorem written_words_read_back (words : list string) :
  words <> [] ->
  Forall (fun w => one_line w = true) words ->
  excluded_probes true (join_newline words) = Some words.
Proof.
  intros Hne Hall; unfold excluded_probes; f_equal.
  assert (Hline : forall w, one_line w = true -> split_newline w = [w]).
  { induction w as [|c w IH]; cbn [one_line split_newline]; [reflexivity|].
    intros H; apply andb_true_iff in H; destruct H as [Hc Hw].
    apply negb_true_iff in Hc; rewrite Hc, (IH Hw); reflexivity. }
  induction words as [|w words IH]; [contradiction|].
  apply Forall_cons_iff in Hall; destruct Hall as [Hw Hall].
  rewrite join_newline_cons; destruct words as [|w' words]; [apply Hline, Hw|].
  rewrite split_append, (Hline w Hw), IH; [reflexivity|discriminate|exact Hall].
Qed.

Lemma written_words_read_back_witness :
  excluded_probes true (join_newline ["one"; "two"; "three"])
  = Some ["one"; "two"; "three"].
Proof.
  apply written_words_read_back; [discriminate|repeat constructor].
Defined.

End WordsFacts.

(** ** Inputs and targets of a batch *)

Module BatchFacts.
Import Np NpFacts Batch.

Lemma row_splits (c : nat) (r : list Z) :
  length r = S c -> skipn c r = [nth c r 0] /\ r = firstn c r ++ [nth c r 0].
Proof.
  intros Hlen.
  assert (Hs : skipn c r = [nth c r 0]).
  { pose proof (length_skipn c r) as Hl; rewrite Hlen in Hl.
    pose proof (nth_skipn c r 0 0) as Hn; rewrite Nat.add_0_r in Hn.
    destruct (skipn c r) as [|t [|t' rest]]; cbn [length] in Hl; try lia.
    cbn [nth] in Hn; rewrite Hn; reflexivity. }
  split; [exact Hs|].
  rewrite <- Hs; symmetry; apply firstn_skipn.
Qed.

(** X22: a batch of [context_size + 1] columns and any number of rows
    other than one is split into [context_size] input columns and a
    vector of targets, one per row: the targets are the last column of the
    batch, each row of the batch is its input row followed by its target,
    and the batch size given to the model is the number of targets. *)
Theorem batch_splits_into_inputs_and_targets (context_size : nat)
    (windows : ndarray) :
  wf windows -> ncols windows = S context_size -> nrows windows <> 1%nat ->
  exists x targets,
    inputs_targets context_size windows = (x, Vector1 targets, length targets) /\
    wf x /\ ncols x = context_size /\ nrows x = nrows windows /\
    column (-1) windows = Ok targets /\
    rows windows = map (fun xt => fst xt ++ [snd xt]) (combine (rows x) targets).
Proof.
  intros Hwf Hw Hn.
  exists {| ncols := Nat.min context_size (ncols windows);
            rows := map (firstn context_size) (rows windows) |},
         (map (fun r => nth context_size r 0) (rows windows)).
  assert (Hrows : forall r, In r (rows windows) -> length r = S context_size)
    by (intros r Hr; rewrite <- Hw; exact (proj1 (Forall_forall _ _) Hwf r Hr)).
  split; [|split; [|split; [|split; [|split]]]].
  - unfold inputs_targets, split_columns, squeeze, nrows; cbn [ncols rows].
    rewrite !length_map, Hw.
    replace (S context_size - context_size)%nat with 1%nat by lia.
    destruct (Nat.eqb_spec (length (rows windows)) 1) as [H1|_]; [contradiction|].
    cbn [Nat.eqb]; rewrite map_map.
    do 2 f_equal; f_equal. apply map_ext_in; intros r Hr.
    rewrite nth_skipn, Nat.add_0_r; reflexivity.
  - apply Forall_forall; intros r Hr; cbn [rows ncols] in *.
    apply in_map_iff in Hr; destruct Hr as [r' [<- Hr']].
    rewrite length_firstn, (Hrows r' Hr'), Hw; reflexivity.
  - cbn [ncols]; lia.
  - unfold nrows; cbn [rows]; apply length_map.
  - change (-1) with (- Z.of_nat 1).
    rewrite (column_from_end (c := 1) Hwf) by lia.
    f_equal; apply map_ext_in; intros r Hr.
    rewrite (Hrows r Hr); f_equal; lia.
  - cbn [rows]; clear Hn Hwf.
    induction (rows windows) as [|r l IH]; [reflexivity|].
    cbn [map combine fst snd]; rewrite <- IH by (intros r' Hr'; apply Hrows; right; exact Hr').
    f_equal; apply row_splits, Hrows; left; reflexivity.
Qed.

(** X23: a batch of a single row is the exception: [np.squeeze] removes
    both axes, so the targets are a zero-dimensional scalar, the last
    entry of the row, and not a vector of length one, while the batch size
    given to the model is 1. *)
Theorem single_row_batch_has_scalar_target (context_size : nat) (r : list Z) :
  length r = S context_size ->
  inputs_targets context_size {| ncols := S context_size; rows := [r] |}
  = ({| ncols := context_size; rows := [firstn context_size r] |},
     Scalar0 (last r 0), 1%nat).
Proof.
  intros Hlen; unfold inputs_targets, split_columns, squeeze, nrows; cbn [ncols rows map length].
  replace (S context_size - context_size)%nat with 1%nat by lia.
  cbn [Nat.eqb nth]; rewrite Nat.min_l by lia.
  do 2 f_equal; f_equal.
  destruct (@row_splits context_size r Hlen) as [Hs Hr].
  rewrite Hs; cbn [nth]; rewrite Hr at 2; rewrite last_last; reflexivity.
Qed.

Lemma batch_splits_into_inputs_and_targets_witness :
  exists x,
    inputs_targets 2 AnalysisDemo.three_windows = (x, Vector1 [2; 5; 1], 3%nat) /\
    rows x = [[1; 3]; [3; 2]; [2; 5]].
Proof.
  destruct (@batch_splits_into_inputs_and_targets 2 AnalysisDemo.three_windows)
    as [x [targets [H1 [_ [_ [_ [H2 H3]]]]]]];
    [repeat constructor | reflexivity | cbn; lia |].
  injection H2 as <-.
  exists x; split; [exact H1|].
  vm_compute in H1; injection H1 as <-; reflexivity.
Defined.

Lemma single_row_batch_has_scalar_target_witness :
  inputs_targets 2 (mk_ndarray 3 [[1; 3; 2]])
  = (mk_ndarray 2 [[1; 3]], Scalar0 2, 1%nat).
Proof.
  apply (@single_row_batch_has_scalar_target 2 [1; 3; 2]); reflexivity.
Defined.

End BatchFacts.
